(** * JigAi: idle detection, line assembly, notifier escaping and event hub

    A shallow embedding of the Python sources
    [jigai/watcher/detector.py], [jigai/watcher/patterns.py],
    [jigai/watcher/watcher.py], [jigai/notifier/macos.py],
    [jigai/server/app.py] and [jigai/server/ws_manager.py], followed by the
    properties of the specification that concern them.

    Conventions.
    - A Python [str] is a list of Unicode code points ([N]); [bytes] is a
      list of [Byte.byte].
    - Readings of [time.time()] are passed to every operation as an explicit
      argument [now].  They are integers ([Z]) counting clock ticks of an
      arbitrary fixed resolution; [timeout_seconds] and [cooldown_seconds]
      are expressed in the same unit.  Rounding of floats is not modelled.
    - The [on_idle] callback is modelled by the list of calls an operation
      makes (explicit state passing with an output trace).
    - [re.Pattern] objects are values of the type [Re.regex]; [Re.search]
      and [Re.sub] follow the backtracking semantics of CPython's [re]
      module on that fragment. *)

From Stdlib Require Import ZArith NArith List Bool Lia String Ascii.
From Stdlib.Strings Require Import Byte.
From stdpp Require Import gmap.
Import ListNotations.

Local Open Scope nat_scope.

(** ** Python strings *)

Module Str.

Definition char := N.
Definition str := list char.

(** An ASCII literal as a [str]. *)
Definition lit (s : string) : str :=
  List.map N_of_ascii (list_ascii_of_string s).

Fixpoint eqb (a b : str) : bool :=
  match a, b with
  | [], [] => true
  | x :: a', y :: b' => N.eqb x y && eqb a' b'
  | _, _ => false
  end.

(** [bool(s)] : a string is truthy iff it is not empty. *)
Definition truthy (s : str) : bool :=
  match s with [] => false | _ => true end.

Definition in_range (lo hi c : N) : bool := (N.leb lo c && N.leb c hi)%N.

(** [str.isspace] on one character: the code points CPython's
    [_PyUnicode_IsWhitespace] accepts. *)
Definition isspace (c : char) : bool :=
  in_range 9 13 c || in_range 28 32 c || N.eqb c 133 || N.eqb c 160
  || N.eqb c 5760 || in_range 8192 8202 c || N.eqb c 8232 || N.eqb c 8233
  || N.eqb c 8239 || N.eqb c 8287 || N.eqb c 12288.

Fixpoint lstrip (s : str) : str :=
  match s with
  | c :: s' => if isspace c then lstrip s' else s
  | [] => []
  end.

Definition rstrip (s : str) : str := rev (lstrip (rev s)).

(** [s.strip()] *)
Definition strip (s : str) : str := rstrip (lstrip s).

Fixpoint is_prefix (p s : str) : bool :=
  match p, s with
  | [], _ => true
  | x :: p', y :: s' => N.eqb x y && is_prefix p' s'
  | _ :: _, [] => false
  end.

(** Left-to-right scan of [s.replace(old, new)] for a non-empty [old];
    [skip] counts the characters of the current occurrence still to drop. *)
Fixpoint replace_go (old new s : str) (skip : nat) : str :=
  match s with
  | [] => []
  | c :: s' =>
      match skip with
      | S k => replace_go old new s' k
      | O =>
          if is_prefix old s
          then new ++ replace_go old new s' (length old - 1)
          else c :: replace_go old new s' 0
      end
  end.

(** [s.replace(old, new)].  With an empty [old] Python inserts [new]
    before every character and at the end. *)
Definition replace (old new s : str) : str :=
  match old with
  | [] => flat_map (fun c => new ++ [c]) s ++ new
  | _ => replace_go old new s 0
  end.

(** [sep in s] for a one-character separator. *)
Definition contains_char (sep : char) (s : str) : bool :=
  existsb (N.eqb sep) s.

(** [s.split(sep, 1)] for a one-character separator that occurs in [s]:
    the text before the first occurrence and the text after it.  [None]
    when [sep] does not occur. *)
Fixpoint split_first (sep : char) (s : str) : option (str * str) :=
  match s with
  | [] => None
  | c :: s' =>
      if N.eqb c sep then Some ([], s')
      else match split_first sep s' with
           | Some (a, b) => Some (c :: a, b)
           | None => None
           end
  end.

(** [s.split(sep)] for a one-character separator: never empty. *)
Fixpoint split (sep : char) (s : str) : list str :=
  match s with
  | [] => [[]]
  | c :: s' =>
      if N.eqb c sep then [] :: split sep s'
      else match split sep s' with
           | l :: ls => (c :: l) :: ls
           | [] => [[c]]
           end
  end.

(** [l[start:]] for a Python list and an integer [start]. *)
Definition slice_from {A} (start : Z) (l : list A) : list A :=
  let n := Z.of_nat (length l) in
  let i := if (start <? 0)%Z then Z.max 0 (n + start) else Z.min start n in
  skipn (Z.to_nat i) l.

End Str.

Import Str.

(** ** Compiled regular expressions ([re.Pattern]) *)

Module Re.

(** The fragment of Python's pattern language the development uses:
    character classes (a list of inclusive code-point ranges, possibly
    negated), concatenation, alternation, greedy and lazy repetition and
    the anchors [^] and [$] (no [MULTILINE]). *)
Inductive regex :=
| Eps
| Cls (negated : bool) (ranges : list (N * N))
| Cat (r1 r2 : regex)
| Alt (r1 r2 : regex)
| Star (greedy : bool) (r : regex)
| Bol
| Eol.

Definition in_class (negated : bool) (ranges : list (N * N)) (c : char) : bool :=
  xorb negated (existsb (fun '(lo, hi) => in_range lo hi c) ranges).

(** Backtracking matcher in continuation-passing style.  [i] is the
    position of the suffix [t] in the subject; [k] receives the position
    and the suffix reached and answers with the end of the whole match.
    Alternatives are tried in the order CPython tries them: the left
    branch of [|] first, one more iteration first for a greedy star and
    last for a lazy one.  An iteration of a star that consumes nothing is
    not repeated. *)
Fixpoint m (r : regex) (i : nat) (t : str) (k : nat -> str -> option nat)
  {struct r} : option nat :=
  match r with
  | Eps => k i t
  | Cls neg rs =>
      match t with
      | c :: t' => if in_class neg rs c then k (S i) t' else None
      | [] => None
      end
  | Cat r1 r2 => m r1 i t (fun j u => m r2 j u k)
  | Alt r1 r2 =>
      match m r1 i t k with
      | Some e => Some e
      | None => m r2 i t k
      end
  | Star greedy r1 =>
      (fix loop (fuel : nat) (i : nat) (t : str) {struct fuel} : option nat :=
         match fuel with
         | O => k i t
         | S fuel' =>
             let again :=
               m r1 i t (fun j u => if i <? j then loop fuel' j u else None) in
             if greedy
             then match again with Some e => Some e | None => k i t end
             else match k i t with Some e => Some e | None => again end
         end) (length t) i t
  | Bol => if i =? 0 then k i t else None
  | Eol =>
      match t with
      | [] => k i t
      | [c] => if N.eqb c 10 then k i t else None
      | _ => None
      end
  end.

(** One attempt at position [i].  With [must_advance] an empty match is
    refused and the matcher backtracks into the other alternatives. *)
Definition match_at (r : regex) (i : nat) (t : str) (must_advance : bool)
  : option nat :=
  m r i t (fun j _ => if must_advance && (j =? i) then None else Some j).

(** [pattern.search]: the leftmost position with a match, as a span. *)
Fixpoint search_from (r : regex) (i : nat) (t : str) : option (nat * nat) :=
  match match_at r i t false with
  | Some e => Some (i, e)
  | None =>
      match t with
      | [] => None
      | _ :: t' => search_from r (S i) t'
      end
  end.

Definition search (r : regex) (s : str) : option (nat * nat) :=
  search_from r 0 s.

(** Truth value of [pattern.search(s)]. *)
Definition found (r : regex) (s : str) : bool :=
  match search r s with Some _ => true | None => false end.

(** [pattern.sub(repl, s)] for a replacement without group references.
    [skip] counts the characters of the last match still to drop.  After
    an empty match CPython searches again from the same position with
    [must_advance] set, and only then moves on. *)
Fixpoint sub_go (r : regex) (repl : str) (i : nat) (t : str) (skip : nat)
  {struct t} : str :=
  match skip, t with
  | S k, _ :: t' => sub_go r repl (S i) t' k
  | S _, [] => []
  | O, _ =>
      let copy :=
        match t with
        | [] => []
        | c :: t' => c :: sub_go r repl (S i) t' 0
        end in
      let drop e :=
        match t with
        | [] => []
        | _ :: t' => sub_go r repl (S i) t' (e - i - 1)
        end in
      match match_at r i t false with
      | None => copy
      | Some e =>
          if e =? i
          then repl ++ match match_at r i t true with
                       | None => copy
                       | Some e' => repl ++ drop e'
                       end
          else repl ++ drop e
      end
  end.

Definition sub (r : regex) (repl : str) (s : str) : str :=
  sub_go r repl 0 s 0.

(** Building blocks for writing patterns down. *)
Definition chr (c : N) : regex := Cls false [(c, c)].
Definition dot : regex := Cls true [(10, 10)]%N.
Definition ws : regex := Cls false
  [(9, 13); (28, 32); (133, 133); (160, 160); (5760, 5760); (8192, 8202);
   (8232, 8232); (8233, 8233); (8239, 8239); (8287, 8287); (12288, 12288)]%N.
Definition non_ws : regex := Cls true
  [(9, 13); (28, 32); (133, 133); (160, 160); (5760, 5760); (8192, 8202);
   (8232, 8232); (8233, 8233); (8239, 8239); (8287, 8287); (12288, 12288)]%N.
Definition plus (greedy : bool) (r : regex) : regex := Cat r (Star greedy r).
Fixpoint word (s : str) : regex :=
  match s with
  | [] => Eps
  | c :: s' => Cat (chr c) (word s')
  end.

End Re.

(** ** Pattern registry ([jigai/watcher/patterns.py]) *)

Module Patterns.

(** [ToolPattern]: compiled patterns for a single tool. *)
Record ToolPattern := {
  name : str;
  key : str;
  patterns : list Re.regex
}.

(** [ToolPattern.matches]: [any(p.search(line) for p in self.patterns)]. *)
Definition matches (tool : ToolPattern) (line : str) : bool :=
  existsb (fun p => Re.found p line) (patterns tool).

(** [PatternRegistry].  [tools] is a Python [dict]; [match_any] depends on
    its iteration order, so it is kept as the list of its items in
    insertion order. *)
Record PatternRegistry := {
  tools : list (str * ToolPattern);
  timeout_seconds : Z;
  cooldown_seconds : Z
}.

(** [key in tools] *)
Definition has_key (k : str) (items : list (str * ToolPattern)) : bool :=
  existsb (fun '(k', _) => Str.eqb k k') items.

(** [tools[key]] *)
Definition get (k : str) (items : list (str * ToolPattern)) : option ToolPattern :=
  match find (fun '(k', _) => Str.eqb k k') items with
  | Some (_, tool) => Some tool
  | None => None
  end.

(** The loop of [PatternRegistry.match_any] over [self.tools.items()]. *)
Fixpoint match_items (items : list (str * ToolPattern)) (line : str) : option str :=
  match items with
  | [] => None
  | (k, tool) :: rest =>
      if matches tool line then Some k else match_items rest line
  end.

Definition match_any (registry : PatternRegistry) (line : str) : option str :=
  match_items (tools registry) line.

Definition get_tool_name (registry : PatternRegistry) (k : str) : str :=
  match get k (tools registry) with
  | Some tool => name tool
  | None => k
  end.

End Patterns.

(** ** Detection engine ([jigai/watcher/detector.py]) *)

Module Detector.
Import Patterns.

(** [_ANSI_RE =
    re.compile(r"\x1b\[[0-9;]*[a-zA-Z]|\x1b\].*?\x07|\x1b\[.*?[@-~]")] *)
Definition _ANSI_RE : Re.regex :=
  Re.Alt
    (Re.Cat (Re.chr 27) (Re.Cat (Re.chr 91)
       (Re.Cat (Re.Star true (Re.Cls false [(48, 57); (59, 59)]%N))
               (Re.Cls false [(97, 122); (65, 90)]%N))))
    (Re.Alt
       (Re.Cat (Re.chr 27) (Re.Cat (Re.chr 93)
          (Re.Cat (Re.Star false Re.dot) (Re.chr 7))))
       (Re.Cat (Re.chr 27) (Re.Cat (Re.chr 91)
          (Re.Cat (Re.Star false Re.dot) (Re.Cls false [(64, 126)]%N))))).

Definition strip_ansi (text : str) : str := Re.sub _ANSI_RE [] text.

(** [DetectorState].  [output_buffer] is a [deque(maxlen=50)], oldest
    entry first. *)
Record DetectorState := {
  last_output_time : Z;
  last_idle_notification : Z;
  output_buffer : list str;
  is_idle : bool;
  detected_tool : option str
}.

(** [DetectorState()] created at time [t0]. *)
Definition initial_state (t0 : Z) : DetectorState :=
  {| last_output_time := t0;
     last_idle_notification := 0;
     output_buffer := [];
     is_idle := false;
     detected_tool := None |}.

Definition maxlen : nat := 50.

(** [deque.append] on a bounded deque: a full deque drops its leftmost
    entry. *)
Definition deque_append (x : str) (buf : list str) : list str :=
  if length buf <? maxlen then buf ++ [x] else tl buf ++ [x].

(** The fields of a [Detector] that its operations only read. *)
Record Detector := {
  registry : PatternRegistry;
  tool_hint : option str;
  _redact_patterns : list Re.regex
}.

(** One invocation of [on_idle(method, tool_key, idle_seconds, recent)];
    [at_time] records the [now] of the invocation. *)
Record IdleCall := {
  at_time : Z;
  method : str;
  tool_key : str;
  idle_seconds : Z;
  recent : list str
}.

Definition REDACTED : str := lit "[REDACTED]".

(** [Detector._redact] *)
Definition _redact (d : Detector) (line : str) : str :=
  fold_left (fun line pat => Re.sub pat REDACTED line) (_redact_patterns d) line.

(** [Detector._trigger_idle] *)
Definition _trigger_idle (d : Detector) (method : str) (tool_key : str)
  (now : Z) (st : DetectorState) : DetectorState * list IdleCall :=
  let cooldown := cooldown_seconds (registry d) in
  if (now - last_idle_notification st <? cooldown)%Z then (st, [])
  else
    let st' := {| last_output_time := last_output_time st;
                  last_idle_notification := now;
                  output_buffer := output_buffer st;
                  is_idle := true;
                  detected_tool := Some tool_key |} in
    let idle_seconds := (now - last_output_time st')%Z in
    let recent := slice_from (-10) (output_buffer st') in
    (st', [ {| at_time := now; method := method; tool_key := tool_key;
               idle_seconds := idle_seconds; recent := recent |} ]).

(** The tool [feed_line] settles on for the cleaned line, hinted tool
    first. *)
Definition matched_tool (d : Detector) (clean : str) : option str :=
  let hinted :=
    match tool_hint d with
    | Some hint =>
        if truthy hint && has_key hint (tools (registry d))
        then match get hint (tools (registry d)) with
             | Some tool => if matches tool clean then Some hint else None
             | None => None
             end
        else None
    | None => None
    end in
  match hinted with
  | None => match_any (registry d) clean
  | Some _ => hinted
  end.

(** [Detector.feed_line] *)
Definition feed_line (d : Detector) (now : Z) (raw_line : str)
  (st : DetectorState) : DetectorState * list IdleCall :=
  let clean := strip (strip_ansi raw_line) in
  if negb (truthy clean) then (st, [])
  else
    let st1 := {| last_output_time := now;
                  last_idle_notification := last_idle_notification st;
                  output_buffer := deque_append (_redact d clean) (output_buffer st);
                  is_idle := false;
                  detected_tool := detected_tool st |} in
    match matched_tool d clean with
    | Some tool => _trigger_idle d (lit "pattern") tool now st1
    | None => (st1, [])
    end.

(** [Detector.check_timeout] *)
Definition check_timeout (d : Detector) (now : Z) (st : DetectorState)
  : DetectorState * list IdleCall :=
  let elapsed := (now - last_output_time st)%Z in
  if (timeout_seconds (registry d) <=? elapsed)%Z && negb (is_idle st)
  then
    let tool_key :=
      match tool_hint d with
      | Some hint => if truthy hint then hint else lit "unknown"
      | None => lit "unknown"
      end in
    _trigger_idle d (lit "timeout") tool_key now st
  else (st, []).

(** [Detector.get_recent_output] *)
Definition get_recent_output (n : Z) (st : DetectorState) : list str :=
  slice_from (- n) (output_buffer st).

(** A call made on the detector, with the clock reading it observes. *)
Inductive call :=
| Feed (now : Z) (raw_line : str)
| Check (now : Z).

Definition step (d : Detector) (c : call) (st : DetectorState)
  : DetectorState * list IdleCall :=
  match c with
  | Feed now raw_line => feed_line d now raw_line st
  | Check now => check_timeout d now st
  end.

(** A sequence of calls, threading the state and collecting the
    invocations of the callback in order. *)
Fixpoint run (d : Detector) (cs : list call) (st : DetectorState)
  : DetectorState * list IdleCall :=
  match cs with
  | [] => (st, [])
  | c :: cs' =>
      let '(st1, out1) := step d c st in
      let '(st2, out2) := run d cs' st1 in
      (st2, out1 ++ out2)
  end.

End Detector.

(** ** Line assembly in the watcher ([jigai/watcher/watcher.py]) *)

Module Watcher.

Definition REPLACEMENT : char := 65533%N.

Definition is_cont (c : N) : bool := in_range 128 191 c.

Definition low6 (c : N) : N := N.land c 63.

(** [data.decode("utf-8", errors="replace")].  CPython's decoder reports
    an invalid start byte as an error of length one, an invalid
    continuation byte as an error covering the bytes accepted so far, and
    a sequence cut short by the end of the data as an error covering the
    rest of the data; the [replace] handler puts one U+FFFD for each
    error and resumes after it. *)
Fixpoint decode (data : list byte) : str :=
  match data with
  | [] => []
  | b1 :: t1 =>
      let c1 := Byte.to_N b1 in
      if (c1 <? 128)%N then c1 :: decode t1
      else if (c1 <? 194)%N then REPLACEMENT :: decode t1
      else if (c1 <? 224)%N then
        match t1 with
        | [] => [REPLACEMENT]
        | b2 :: t2 =>
            let c2 := Byte.to_N b2 in
            if is_cont c2
            then N.lor (N.shiftl (N.land c1 31) 6) (low6 c2) :: decode t2
            else REPLACEMENT :: decode t1
        end
      else if (c1 <? 240)%N then
        match t1 with
        | [] => [REPLACEMENT]
        | b2 :: t2 =>
            let c2 := Byte.to_N b2 in
            if negb (is_cont c2)
               || (if (c2 <? 160)%N then N.eqb c1 224 else N.eqb c1 237)
            then REPLACEMENT :: decode t1
            else
              match t2 with
              | [] => [REPLACEMENT]
              | b3 :: t3 =>
                  let c3 := Byte.to_N b3 in
                  if is_cont c3
                  then N.lor (N.shiftl (N.land c1 15) 12)
                         (N.lor (N.shiftl (low6 c2) 6) (low6 c3)) :: decode t3
                  else REPLACEMENT :: decode t2
              end
        end
      else if (c1 <? 245)%N then
        match t1 with
        | [] => [REPLACEMENT]
        | b2 :: t2 =>
            let c2 := Byte.to_N b2 in
            if negb (is_cont c2)
               || (if (c2 <? 144)%N then N.eqb c1 240 else N.eqb c1 244)
            then REPLACEMENT :: decode t1
            else
              match t2 with
              | [] => [REPLACEMENT]
              | b3 :: t3 =>
                  let c3 := Byte.to_N b3 in
                  if negb (is_cont c3) then REPLACEMENT :: decode t2
                  else
                    match t3 with
                    | [] => [REPLACEMENT]
                    | b4 :: t4 =>
                        let c4 := Byte.to_N b4 in
                        if is_cont c4
                        then N.lor (N.shiftl (N.land c1 7) 18)
                               (N.lor (N.shiftl (low6 c2) 12)
                                  (N.lor (N.shiftl (low6 c3) 6) (low6 c4)))
                             :: decode t4
                        else REPLACEMENT :: decode t3
                    end
              end
        end
      else REPLACEMENT :: decode t1
  end.

Definition NL : char := 10%N.

Section Handler.

(** The detector as the handler sees it: a state [D] and the effect of
    [self.detector.feed_line(line)] on it. *)
Context {D : Type} (feed_line : str -> D -> D).

(** [while "\n" in self._line_buffer: line, self._line_buffer =
    self._line_buffer.split("\n", 1); self.detector.feed_line(line)].
    Every round shortens the buffer, so [fuel] rounds are enough for a
    buffer of length [fuel]. *)
Fixpoint feed_complete (fuel : nat) (buf : str) (d : D) : str * D :=
  match fuel with
  | O => (buf, d)
  | S fuel' =>
      if contains_char NL buf
      then match split_first NL buf with
           | Some (line, rest) => feed_complete fuel' rest (feed_line line d)
           | None => (buf, d)
           end
      else (buf, d)
  end.

(** The body of [Watcher._handle_output] once the chunk is decoded.
    The state is the pair of [self._line_buffer] and the detector. *)
Definition accumulate (text : str) (w : str * D) : str * D :=
  let buf := fst w ++ text in
  let '(buf', d') := feed_complete (length buf) buf (snd w) in
  if truthy (strip buf') then (buf', feed_line buf' d') else (buf', d').

(** [Watcher._handle_output] *)
Definition _handle_output (data : list byte) (w : str * D) : str * D :=
  accumulate (decode data) w.

(** The chunks the PTY proxy delivers, in order. *)
Definition deliver (chunks : list (list byte)) (w : str * D) : str * D :=
  fold_left (fun w data => _handle_output data w) chunks w.

(** The same for chunks of text. *)
Definition deliver_text (texts : list str) (w : str * D) : str * D :=
  fold_left (fun w text => accumulate text w) texts w.

End Handler.

(** A detector that only records the lines it is fed. *)
Definition record_line (line : str) (fed : list str) : list str := fed ++ [line].

(** The lines fed while the chunks are delivered to a fresh watcher. *)
Definition fed_lines (chunks : list (list byte)) : list str :=
  snd (deliver record_line chunks ([], [])).

(** The lines the loop of the handler feeds when [text] is appended to
    the buffer [buf], and the buffer the loop leaves. *)
Definition completed (buf text : str) : list str :=
  snd (feed_complete record_line (length (buf ++ text)) (buf ++ text) []).

Definition remainder (buf text : str) : str :=
  fst (feed_complete record_line (length (buf ++ text)) (buf ++ text) []).

(** The feed of the trailing fragment, made when the buffer is not blank. *)
Definition fragment (buf : str) : list str :=
  if truthy (strip buf) then [buf] else [].

(** The completed lines fed over a sequence of decoded chunks, starting
    from the buffer [buf]. *)
Fixpoint all_completed (buf : str) (texts : list str) : list str :=
  match texts with
  | [] => []
  | text :: rest => completed buf text ++ all_completed (remainder buf text) rest
  end.

(** All the lines fed over a sequence of decoded chunks: after the
    completed lines of each chunk comes the feed of the fragment. *)
Fixpoint all_fed (buf : str) (texts : list str) : list str :=
  match texts with
  | [] => []
  | text :: rest =>
      completed buf text ++ fragment (remainder buf text)
      ++ all_fed (remainder buf text) rest
  end.

End Watcher.

(** ** Notification text ([jigai/notifier/macos.py]) *)

Module Notifier.

Definition BACKSLASH : char := 92%N.
Definition QUOTE : char := 34%N.
Definition RETURN_SYMBOL : char := 9166%N.

(** [_sanitize]: three [str.replace] calls chained in this order: every
    backslash by two backslashes, every double quote by a backslash and a
    double quote, every newline by a space, U+23CE and a space. *)
Definition _sanitize (text : str) : str :=
  replace [10%N] [32%N; RETURN_SYMBOL; 32%N]
    (replace [QUOTE] [BACKSLASH; QUOTE]
       (replace [BACKSLASH] [BACKSLASH; BACKSLASH] text)).

(** What becomes of one character. *)
Definition escape (c : char) : str :=
  if N.eqb c BACKSLASH then [BACKSLASH; BACKSLASH]
  else if N.eqb c QUOTE then [BACKSLASH; QUOTE]
  else if N.eqb c 10 then [32%N; RETURN_SYMBOL; 32%N]
  else [c].

End Notifier.

(** ** Event hub ([jigai/server/app.py], [jigai/server/ws_manager.py]) *)

Module Hub.

(** [IdleEventRequest]: the body of [POST /api/events]. *)
Record IdleEventRequest := {
  session_id : str;
  tool_name : str;
  working_dir : str;
  last_output : str;
  idle_seconds : Z;
  detection_method : str
}.

(** The [event_data] dictionary.  [ev_server_time] is the key
    [broadcast] adds to the dictionary it is given. *)
Record EventRecord := {
  ev_type : str;
  ev_session_id : str;
  ev_tool_name : str;
  ev_working_dir : str;
  ev_last_output : str;
  ev_idle_seconds : Z;
  ev_detection_method : str;
  ev_timestamp : str;
  ev_server_time : option str
}.

(** A value of the [sessions] dictionary; the keys a record may lack are
    optional. *)
Record SessionRecord := {
  s_session_id : str;
  s_tool_name : str;
  s_working_dir : str;
  s_status : str;
  s_command : option (list str);
  s_registered_at : option str;
  s_last_event : option EventRecord
}.

(** The module-level state: [sessions], [event_history] and
    [manager.active_connections] (a connection is named by a number). *)
Record State := {
  sessions : gmap str SessionRecord;
  event_history : list EventRecord;
  active_connections : list nat
}.

Definition initial : State :=
  {| sessions := ∅; event_history := []; active_connections := [] |}.

Definition MAX_HISTORY : nat := 100.

(** [list.remove(x)]: drops the first occurrence. *)
Fixpoint remove_first (x : nat) (l : list nat) : list nat :=
  match l with
  | [] => []
  | y :: l' => if Nat.eqb x y then l' else y :: remove_first x l'
  end.

(** [ConnectionManager.broadcast] on the event dictionary.  [send_ok]
    tells which connections accept the message; [server_time] is the
    clock reading.  Returns the connections left and the dictionary,
    which is updated in place when there is a connection. *)
Definition broadcast (server_time : str) (send_ok : nat -> bool)
  (data : EventRecord) (conns : list nat) : list nat * EventRecord :=
  match conns with
  | [] => (conns, data)
  | _ =>
      let data' := {| ev_type := ev_type data;
                      ev_session_id := ev_session_id data;
                      ev_tool_name := ev_tool_name data;
                      ev_working_dir := ev_working_dir data;
                      ev_last_output := ev_last_output data;
                      ev_idle_seconds := ev_idle_seconds data;
                      ev_detection_method := ev_detection_method data;
                      ev_timestamp := ev_timestamp data;
                      ev_server_time := Some server_time |} in
      let dead := List.filter (fun ws => negb (send_ok ws)) conns in
      (fold_left (fun l ws => remove_first ws l) dead conns, data')
  end.

(** [client_count] *)
Definition client_count (h : State) : nat := length (active_connections h).

(** The response of [POST /api/events]. *)
Record EventResponse := {
  status : str;
  clients_notified : nat
}.

(** [receive_event].  [timestamp] and [server_time] are the two clock
    readings.  The session record and the history hold the same
    dictionary object that [broadcast] later updates, so both see the
    [server_time] key. *)
Definition receive_event (event : IdleEventRequest) (timestamp server_time : str)
  (send_ok : nat -> bool) (h : State) : State * EventResponse :=
  let event_data := {| ev_type := lit "idle_detected";
                       ev_session_id := session_id event;
                       ev_tool_name := tool_name event;
                       ev_working_dir := working_dir event;
                       ev_last_output := last_output event;
                       ev_idle_seconds := idle_seconds event;
                       ev_detection_method := detection_method event;
                       ev_timestamp := timestamp;
                       ev_server_time := None |} in
  let '(conns, event_data) :=
    broadcast server_time send_ok event_data (active_connections h) in
  let record := {| s_session_id := session_id event;
                   s_tool_name := tool_name event;
                   s_working_dir := working_dir event;
                   s_status := lit "idle";
                   s_command := None;
                   s_registered_at := None;
                   s_last_event := Some event_data |} in
  let history := event_history h ++ [event_data] in
  let history := if MAX_HISTORY <? length history then tl history else history in
  let h' := {| sessions := <[session_id event := record]> (sessions h);
               event_history := history;
               active_connections := conns |} in
  (h', {| status := lit "ok"; clients_notified := client_count h' |}).

(** [list_events]: [event_history[-limit:]]. *)
Definition list_events (limit : Z) (h : State) : list EventRecord :=
  slice_from (- limit) (event_history h).

Definition DEFAULT_LIMIT : Z := 20.

(** One [POST /api/events] with what it reads from its environment. *)
Record Post := {
  post_event : IdleEventRequest;
  post_timestamp : str;
  post_server_time : str;
  post_send_ok : nat -> bool
}.

Definition post (p : Post) (h : State) : State :=
  fst (receive_event (post_event p) (post_timestamp p) (post_server_time p)
         (post_send_ok p) h).

(** The hub after a sequence of posts. *)
Definition posts (ps : list Post) (h : State) : State :=
  fold_left (fun h p => post p h) ps h.

(** The last [n] entries of a list. *)
Definition last_n {A} (n : nat) (l : list A) : list A :=
  skipn (length l - n) l.

End Hub.

(** ** Traces of calls and what is observed of them *)

Module Trace.
Import Patterns Detector.

(** The clock reading a call observes. *)
Definition call_time (c : call) : Z :=
  match c with Feed now _ => now | Check now => now end.

(** A call that brings output: [feed_line] of a line that is not empty
    once stripped and trimmed. *)
Definition is_output (c : call) : bool :=
  match c with
  | Feed _ raw_line => truthy (strip (strip_ansi raw_line))
  | Check _ => false
  end.

(** The call invokes the callback when made in state [st]. *)
Definition fires (d : Detector) (c : call) (st : DetectorState) : Prop :=
  snd (step d c st) <> [].

(** The outcome of one call, as far as the gate is concerned: either the
    callback is not invoked and [last_idle_notification] keeps its value,
    or it is invoked once, the cooldown has passed, and
    [last_idle_notification] becomes the current time. *)
Inductive gate_outcome (cooldown now : Z) (st st' : DetectorState)
  : list IdleCall -> Prop :=
  | gate_quiet :
    last_idle_notification st' = last_idle_notification st ->
    gate_outcome cooldown now st st' []
  | gate_fired e :
    at_time e = now ->
    (cooldown <= now - last_idle_notification st)%Z ->
    last_idle_notification st' = now ->
    gate_outcome cooldown now st st' [e].

(** Successive invocations in a trace are [cooldown] apart, the first
    one counted from [t]. *)
Fixpoint spaced (cooldown t : Z) (out : list IdleCall) : Prop :=
  match out with
  | [] => True
  | e :: out' => (cooldown <= at_time e - t)%Z /\ spaced cooldown (at_time e) out'
  end.

(** The time of the last invocation of a trace, [t] when it is empty. *)
Definition last_fire (t : Z) (out : list IdleCall) : Z :=
  fold_left (fun _ e => at_time e) out t.

(** No call of the sequence brings output. *)
Definition quiet (cs : list call) : Prop :=
  Forall (fun c => is_output c = false) cs.

(** [tool_hint or "unknown"] *)
Definition hint_or_unknown (d : Detector) : str :=
  match tool_hint d with
  | Some hint => if truthy hint then hint else lit "unknown"
  | None => lit "unknown"
  end.

(** The tool, if any, that [feed_line] hands to [_trigger_idle] for a
    line: none for a line that is empty once stripped and trimmed. *)
Definition decision (d : Detector) (raw_line : str) : option str :=
  let clean := strip (strip_ansi raw_line) in
  if negb (truthy clean) then None else matched_tool d clean.

(** The text holds no ESC character. *)
Definition no_escape (text : str) : Prop :=
  Forall (fun c => c <> 27%N) text.

(** The lines [feed_line] was given in a sequence of calls. *)
Fixpoint fed (cs : list call) : list str :=
  match cs with
  | [] => []
  | Feed _ raw_line :: cs' => raw_line :: fed cs'
  | Check _ :: cs' => fed cs'
  end.

(** The ring entry [feed_line] stores for a line. *)
Definition ring_entry (d : Detector) (raw_line : str) : str :=
  _redact d (strip (strip_ansi raw_line)).

End Trace.

(** ** A registry in the shape of the one of [tests/test_detector.py] *)

Module Fixture.
Import Patterns Detector.

(** [>>\s*$] *)
Definition claude_prompt : Re.regex :=
  Re.Cat (Re.word (lit ">>")) (Re.Cat (Re.Star true Re.ws) Re.Eol).

(** [codex>\s*$] *)
Definition codex_prompt : Re.regex :=
  Re.Cat (Re.word (lit "codex>")) (Re.Cat (Re.Star true Re.ws) Re.Eol).

Definition claude_code : ToolPattern :=
  {| name := lit "Claude Code"; key := lit "claude_code"; patterns := [claude_prompt] |}.

Definition codex : ToolPattern :=
  {| name := lit "Codex"; key := lit "codex"; patterns := [codex_prompt] |}.

Definition make_registry (timeout cooldown : Z) : PatternRegistry :=
  {| tools := [(lit "claude_code", claude_code); (lit "codex", codex)];
   timeout_seconds := timeout;
   cooldown_seconds := cooldown |}.

Definition make_detector (timeout cooldown : Z) (hint : option str) : Detector :=
  {| registry := make_registry timeout cooldown;
   tool_hint := hint;
   _redact_patterns := [] |}.

Definition ESC : char := 27%N.

(** A prompt followed by a colour reset whose ESC character is doubled:
    [">>\x1b\x1b[0m[0m"]. *)
Definition nested_reset : str :=
  lit ">>" ++ [ESC; ESC] ++ lit "[0m[0m".

(** A registry whose second tool has the empty string for key. *)
Definition anonymous : ToolPattern :=
  {| name := lit "Anonymous"; key := []; patterns := [claude_prompt] |}.

Definition detector_with_empty_hint : Detector :=
  {| registry := {| tools := [(lit "claude_code", claude_code); ([], anonymous)];
                  timeout_seconds := 5;
                  cooldown_seconds := 0 |};
   tool_hint := Some [];
   _redact_patterns := [] |}.

(** [[A-Z0-9]+], a redaction pattern for upper-case keys. *)
Definition upper_key : Re.regex :=
  Re.plus true (Re.Cls false [(65, 90); (48, 57)]%N).

Definition detector_redacting_keys : Detector :=
  {| registry := make_registry 5 0;
   tool_hint := None;
   _redact_patterns := [upper_key] |}.

End Fixture.

(** ** Sessions and connections of the hub *)

Module Manager.
Import Hub.

(** [ConnectionManager.connect]: the connection is accepted and appended. *)
Definition connect (ws : nat) (h : State) : State :=
  {| sessions := sessions h;
     event_history := event_history h;
     active_connections := active_connections h ++ [ws] |}.

(** [ConnectionManager.disconnect]: [if websocket in
    self.active_connections: self.active_connections.remove(websocket)]. *)
Definition disconnect (ws : nat) (h : State) : State :=
  {| sessions := sessions h;
     event_history := event_history h;
     active_connections :=
       if existsb (Nat.eqb ws) (active_connections h)
       then remove_first ws (active_connections h)
       else active_connections h |}.

(** What [ConnectionManager.broadcast] does to the list of connections,
    whatever the message: nothing when there is none, else every
    connection whose send fails is collected and then removed. *)
Definition prune (send_ok : nat -> bool) (conns : list nat) : list nat :=
  match conns with
  | [] => conns
  | _ =>
      let dead := List.filter (fun ws => negb (send_ok ws)) conns in
      fold_left (fun l ws => remove_first ws l) dead conns
  end.

(** [SessionRegisterRequest]: the body of [POST /api/sessions]. *)
Record SessionRegisterRequest := {
  req_session_id : str;
  req_tool_name : str;
  req_command : list str;
  req_working_dir : str
}.

(** [register_session]; [registered_at] is the clock reading. *)
Definition register_session (req : SessionRegisterRequest) (registered_at : str)
  (send_ok : nat -> bool) (h : State) : State * str :=
  let record := {| s_session_id := req_session_id req;
                   s_tool_name := req_tool_name req;
                   s_working_dir := req_working_dir req;
                   s_status := lit "active";
                   s_command := Some (req_command req);
                   s_registered_at := Some registered_at;
                   s_last_event := None |} in
  ({| sessions := <[req_session_id req := record]> (sessions h);
      event_history := event_history h;
      active_connections := prune send_ok (active_connections h) |},
   lit "ok").

(** [unregister_session] *)
Definition unregister_session (session_id : str) (send_ok : nat -> bool)
  (h : State) : State * str :=
  ({| sessions :=
        match sessions h !! session_id with
        | Some _ => delete session_id (sessions h)
        | None => sessions h
        end;
      event_history := event_history h;
      active_connections := prune send_ok (active_connections h) |},
   lit "ok").

(** The answer of [GET /api/health]. *)
Record Health := {
  health_status : str;
  health_version : str;
  health_clients : nat;
  health_sessions : nat
}.

Definition health (h : State) : Health :=
  {| health_status := lit "ok";
     health_version := lit "0.1.0";
     health_clients := client_count h;
     health_sessions := size (sessions h) |}.

(** What a history entry keeps of the request it came from. *)
Definition request_of (e : EventRecord) : IdleEventRequest * str :=
  ({| session_id := ev_session_id e;
      tool_name := ev_tool_name e;
      working_dir := ev_working_dir e;
      last_output := ev_last_output e;
      idle_seconds := ev_idle_seconds e;
      detection_method := ev_detection_method e |},
   ev_timestamp e).

(** The request and the time stamp of a post. *)
Definition posted (p : Post) : IdleEventRequest * str :=
  (post_event p, post_timestamp p).

End Manager.

(** ** The notification command ([jigai/notifier/macos.py]) *)

Module Osascript.
Import Notifier.

(** [sep.join(parts)] *)
Fixpoint join (sep : str) (parts : list str) : str :=
  match parts with
  | [] => []
  | [part] => part
  | part :: rest => part ++ sep ++ join sep rest
  end.






(** Reading a string literal of the script from just after its opening
    quote: a backslash makes the next character part of the text, a quote
    ends the literal.  The text read and what follows the closing quote;
    [None] when the literal is not closed. *)
Fixpoint read_literal (s : str) : option (str * str) :=
  match s with
  | [] => None
  | c :: rest =>
      if N.eqb c QUOTE then Some ([], rest)
      else if N.eqb c BACKSLASH then
        match rest with
        | [] => None
        | c' :: rest' =>
            match read_literal rest' with
            | Some (text, after) => Some (c' :: text, after)
            | None => None
            end
        end
      else
        match read_literal rest with
        | Some (text, after) => Some (c :: text, after)
        | None => None
        end
  end.

(** The text with every newline made visible. *)
Definition visible (text : str) : str :=
  flat_map (fun c => if N.eqb c 10 then [32%N; RETURN_SYMBOL; 32%N] else [c]) text.

End Osascript.

(** ** Loading the registry and choosing the tool
    ([jigai/watcher/patterns.py], [Watcher.__init__]) *)

Module Loading.
Import Patterns Detector.

Section Compile.

(** [re.compile] on the text of a pattern: the compiled pattern, [None]
    where it raises [re.error]. *)
Variable compile : str -> option Re.regex.


(** [Detector.set_redact_patterns]: the new value of [_redact_patterns]. *)
Definition set_redact_patterns (d : Detector) (patterns : list str) : Detector :=
  {| registry := registry d;
     tool_hint := tool_hint d;
     _redact_patterns :=
       fold_left
         (fun compiled pat =>
            match compile pat with
            | Some p => compiled ++ [p]
            | None => compiled
            end)
         patterns [] |}.








End Compile.

Section Lower.

(** [str.lower] *)
Variable lower : str -> str.

(** [needle in hay] *)
Fixpoint contains (needle hay : str) : bool :=
  is_prefix needle hay
  || match hay with
     | [] => false
     | _ :: hay' => contains needle hay'
     end.

(** The table [tool_hints] of [detect_tool_from_command]. *)
Definition tool_hints : list (str * list str) :=
  [(lit "claude_code", [lit "claude"]);
   (lit "codex", [lit "codex"]);
   (lit "gemini_cli", [lit "gemini"]);
   (lit "aider", [lit "aider"]);
   (lit "opencode", [lit "opencode"])].

(** The two nested loops over the table. *)
Fixpoint first_hinted (table : list (str * list str)) (cmd_str : str)
  (registry : PatternRegistry) : option str :=
  match table with
  | [] => None
  | (tool_key, hints) :: rest =>
      if has_key tool_key (tools registry)
         && existsb (fun hint => contains hint cmd_str) hints
      then Some tool_key
      else first_hinted rest cmd_str registry
  end.

(** [detect_tool_from_command] *)
Definition detect_tool_from_command (command : list str)
  (registry : PatternRegistry) : str :=
  match command with
  | [] => lit "unknown"
  | _ =>
      let cmd_str := lower (Osascript.join (lit " ") command) in
      match first_hinted tool_hints cmd_str registry with
      | Some tool_key => tool_key
      | None => lit "unknown"
      end
  end.

(** The [tool_key] of [Watcher.__init__]. *)
Definition watcher_tool_key (command : list str) (tool_override : option str)
  (registry : PatternRegistry) : str :=
  match tool_override with
  | Some t => if truthy t then t else detect_tool_from_command command registry
  | None => detect_tool_from_command command registry
  end.

(** The detector [Watcher.__init__] creates, before the redaction
    patterns are set. *)
Definition watcher_detector (command : list str) (tool_override : option str)
  (registry : PatternRegistry) : Detector :=
  {| registry := registry;
     tool_hint := Some (watcher_tool_key command tool_override registry);
     _redact_patterns := [] |}.

End Lower.

(** The keys of a [dict], in order. *)
Definition keys (items : list (str * ToolPattern)) : list str :=
  List.map fst items.


(** The key is one of the keys. *)
Definition mem (k : str) (ks : list str) : bool := existsb (Str.eqb k) ks.

End Loading.

(** ** What a run of the detector leaves behind *)

Module Observed.
Import Patterns Detector Trace.

(** The last [n] entries of a list, all of them when there are fewer. *)
Definition keep_last {A} (n : nat) (l : list A) : list A :=
  skipn (length l - n) l.

(** The ring entries of the lines of a sequence of calls that are not
    empty once stripped and trimmed, in the order they were fed. *)
Definition stored (d : Detector) (cs : list call) : list str :=
  List.map (ring_entry d)
    (List.filter (fun raw_line => truthy (strip (strip_ansi raw_line))) (fed cs)).

(** The clock reading of the last call that brought output, [t] when
    there is none. *)
Definition last_output (cs : list call) (t : Z) : Z :=
  fold_left (fun t c => if is_output c then call_time c else t) cs t.

(** The tool key of the last invocation of a trace, [k] when it is
    empty. *)
Definition last_tool (out : list IdleCall) (k : option str) : option str :=
  fold_left (fun _ e => Some (tool_key e)) out k.

(** Every character of the text is white space. *)
Definition blank (text : str) : Prop :=
  Forall (fun c => isspace c = true) text.

End Observed.

(** ** The text of a notification ([jigai/watcher/watcher.py]) *)

Module Idle.

(** The character class of [_SEPARATOR_RE]: white space, the box-drawing
    block, [-], [=], [_], [|], [*], [~], the em dash and the en dash. *)
Definition separator_class : list (N * N) :=
  [(9, 13); (28, 32); (133, 133); (160, 160); (5760, 5760); (8192, 8202);
   (8232, 8232); (8233, 8233); (8239, 8239); (8287, 8287); (12288, 12288);
   (0x2500, 0x257F); (45, 45); (61, 61); (95, 95); (124, 124); (42, 42);
   (126, 126); (0x2014, 0x2014); (0x2013, 0x2013)]%N.

Definition _SEPARATOR_RE : Re.regex :=
  Re.Cat Re.Bol (Re.Cat (Re.plus true (Re.Cls false separator_class)) Re.Eol).

(** The character class of [_DECOR_RE]: four blocks of symbols, then the
    characters the source lists one by one. *)
Definition decor_class : list (N * N) :=
  [(0x2500, 0x257F); (0x2580, 0x259F); (0x25A0, 0x25FF); (0x2600, 0x26FF);
   (0x25CF, 0x25CF); (0x273B, 0x273B); (0x26A1, 0x26A1); (0x2713, 0x2713);
   (0x25BA, 0x25BA); (0x25B6, 0x25B6); (0x26A0, 0x26A0); (45, 45);
   (0x2500, 0x2500); (0x2501, 0x2501); (0x256D, 0x256D); (0x256E, 0x256E);
   (0x2570, 0x2570); (0x256F, 0x256F); (0x2502, 0x2502)]%N.

Definition _DECOR_RE : Re.regex := Re.Cls false decor_class.

(** [[a-zA-Z]] *)
Definition letter_class : list (N * N) := [(97, 122); (65, 90)]%N.

(** [[a-zA-Z]{3,}]: three letters, then as many as there are. *)
Definition _HAS_ALPHA : Re.regex :=
  let letter := Re.Cls false letter_class in
  Re.Cat letter (Re.Cat letter (Re.Cat letter (Re.Star true letter))).

(** The loop of [_last_meaningful_line] over [reversed(text.split("\n"))]. *)
Fixpoint last_meaningful (lines : list str) : str :=
  match lines with
  | [] => []
  | line :: rest =>
      let stripped := strip line in
      if negb (truthy stripped)
         || match Re.match_at _SEPARATOR_RE 0 stripped false with
            | Some _ => true
            | None => false
            end
      then last_meaningful rest
      else
        let cleaned := strip (Re.sub _DECOR_RE [] stripped) in
        if Re.found _HAS_ALPHA cleaned then cleaned else last_meaningful rest
  end.

(** [_last_meaningful_line] *)
Definition _last_meaningful_line (text : str) : str :=
  last_meaningful (rev (split Watcher.NL text)).

(** Words for the statements: a decoration character, a letter, a text
    with three letters in a row, and a line with its white space and its
    decoration characters taken off. *)
Definition is_decor (c : char) : bool := Re.in_class false decor_class c.

Definition is_letter (c : char) : bool := Re.in_class false letter_class c.

Fixpoint has_word (s : str) : bool :=
  match s with
  | a :: s' =>
      match s' with
      | b :: c :: _ => is_letter a && is_letter b && is_letter c || has_word s'
      | _ => false
      end
  | [] => false
  end.

Definition clean (line : str) : str :=
  strip (List.filter (fun c => negb (is_decor c)) (strip line)).

(** [last_output] in [_handle_idle]: the last [output_lines] of the
    lines the callback receives, joined by newlines. *)
Definition last_output (output_lines : Z) (recent_lines : list str) : str :=
  match recent_lines with
  | [] => []
  | _ => Osascript.join [Watcher.NL] (slice_from (- output_lines) recent_lines)
  end.


End Idle.

(** ** The watcher and its detector ([jigai/watcher/watcher.py]) *)

Module Wiring.
Import Patterns Detector Watcher.

Section Wired.

Variable d : Detector.

(** The readings of [time.time()], in the order they are made: the one
    made by the [n]-th call of [feed_line] is [clock n]. *)
Variable clock : nat -> Z.

(** The detector as the watcher holds it: the number of readings of the
    clock made so far, the state, and the invocations of [on_idle]. *)
Record Side := {
  reads : nat;
  state : DetectorState;
  calls : list IdleCall
}.

(** [self.detector.feed_line(line)] *)
Definition feed (line : str) (s : Side) : Side :=
  let '(st, out) := feed_line d (clock (reads s)) line (state s) in
  {| reads := S (reads s); state := st; calls := calls s ++ out |}.

(** The calls of [feed_line] that feeding [lines] makes, the first one
    with reading [n] of the clock. *)
Fixpoint stamp (n : nat) (lines : list str) : list call :=
  match lines with
  | [] => []
  | line :: rest => Feed (clock n) line :: stamp (S n) rest
  end.

End Wired.

(** A watcher that has received nothing, with a detector that has made
    [n] readings of the clock and is in state [st]. *)
Definition fresh (n : nat) (st : DetectorState) : str * Side :=
  ([], {| reads := n; state := st; calls := [] |}).

(** The text has no newline. *)
Definition one_line (text : str) : Prop := contains_char NL text = false.

End Wiring.

(** * Properties *)

Import Patterns Detector Trace.

(** ** The cooldown gate *)

Section Cooldown.

Variable d : Detector.

Lemma trigger_blocked m k now st :
  (now - last_idle_notification st < cooldown_seconds (registry d))%Z ->
  _trigger_idle d m k now st = (st, []).
Proof.
  intros H. unfold _trigger_idle.
  destruct (Z.ltb_spec (now - last_idle_notification st)
              (cooldown_seconds (registry d))); [reflexivity | lia].
Qed.

Lemma trigger_fires m k now st :
  (cooldown_seconds (registry d) <= now - last_idle_notification st)%Z ->
  _trigger_idle d m k now st =
    ({| last_output_time := last_output_time st;
        last_idle_notification := now;
        output_buffer := output_buffer st;
        is_idle := true;
        detected_tool := Some k |},
     [ {| at_time := now; method := m; tool_key := k;
          idle_seconds := now - last_output_time st;
          recent := slice_from (-10) (output_buffer st) |} ]).
Proof.
  intros H. unfold _trigger_idle.
  destruct (Z.ltb_spec (now - last_idle_notification st)
              (cooldown_seconds (registry d))); [lia | reflexivity].
Qed.

Lemma trigger_outcome m k now st st' out :
  _trigger_idle d m k now st = (st', out) ->
  gate_outcome (cooldown_seconds (registry d)) now st st' out.
Proof.
  intros H.
  destruct (Z.lt_ge_cases (now - last_idle_notification st)
              (cooldown_seconds (registry d))) as [Hlt | Hge].
  - rewrite trigger_blocked in H by assumption. inversion H; subst.
    now constructor.
  - rewrite trigger_fires in H by assumption. inversion H; subst.
    now constructor.
Qed.

Lemma step_outcome c st st' out :
  step d c st = (st', out) ->
  gate_outcome (cooldown_seconds (registry d)) (call_time c) st st' out.
Proof.
  destruct c as [now raw | now]; simpl.
  - unfold feed_line.
    destruct (negb (truthy (strip (strip_ansi raw)))).
    + intros H; inversion H; subst. now constructor.
    + destruct (matched_tool d (strip (strip_ansi raw))) as [tool | ].
      * intros H. apply trigger_outcome in H.
        inversion H; subst; simpl in *; now constructor.
      * intros H; inversion H; subst. now constructor.
  - unfold check_timeout.
    destruct (_ && _).
    + apply trigger_outcome.
    + intros H; inversion H; subst. now constructor.
Qed.

Lemma spaced_app cd t out1 out2 :
  spaced cd t out1 -> spaced cd (last_fire t out1) out2 -> spaced cd t (out1 ++ out2).
Proof.
  revert t. induction out1 as [ | e out1 IH]; simpl; intros t H1 H2.
  - assumption.
  - destruct H1 as [He H1]. split; [assumption | ]. now apply IH.
Qed.

Lemma run_spaced cs : forall st st' out,
  run d cs st = (st', out) ->
  spaced (cooldown_seconds (registry d)) (last_idle_notification st) out
  /\ last_idle_notification st' = last_fire (last_idle_notification st) out.
Proof.
  induction cs as [ | c cs IH]; simpl; intros st st' out H.
  - inversion H; subst. simpl. auto.
  - destruct (step d c st) as [st1 out1] eqn:E1.
    destruct (run d cs st1) as [st2 out2] eqn:E2.
    inversion H; subst. clear H.
    apply step_outcome in E1. apply IH in E2. destruct E2 as [Hs Hl].
    inversion E1 as [Hq | e Ht Hc Hn]; subst; simpl.
    + rewrite Hq in *. auto.
    + rewrite Hn in *. rewrite Ht. auto.
Qed.

Lemma spaced_adjacent cd out1 : forall t e1 e2 out2,
  spaced cd t (out1 ++ e1 :: e2 :: out2) ->
  (cd <= at_time e2 - at_time e1)%Z.
Proof.
  induction out1 as [ | e out1 IH]; simpl; intros t e1 e2 out2 H.
  - tauto.
  - destruct H as [_ H]. eapply IH; eassumption.
Qed.

(** C1.  Whatever the calls made on a detector: a call invokes the idle
    callback at most once, and only when the time since
    [last_idle_notification] is at least [cooldown_seconds], and it then
    sets [last_idle_notification] to the current time; two successive
    invocations of a run are therefore at least [cooldown_seconds] apart;
    a gap of exactly [cooldown_seconds] lets [_trigger_idle] fire and a
    smaller gap does not. *)
Theorem cooldown_gate :
  (forall c st st' out,
      step d c st = (st', out) ->
      gate_outcome (cooldown_seconds (registry d)) (call_time c) st st' out)
  /\ (forall cs st st' out1 e1 e2 out2,
        run d cs st = (st', out1 ++ e1 :: e2 :: out2) ->
        (cooldown_seconds (registry d) <= at_time e2 - at_time e1)%Z)
  /\ (forall m k now st,
        (now - last_idle_notification st = cooldown_seconds (registry d))%Z ->
        exists e, snd (_trigger_idle d m k now st) = [e] /\ at_time e = now)
  /\ (forall m k now st,
        (now - last_idle_notification st < cooldown_seconds (registry d))%Z ->
        _trigger_idle d m k now st = (st, [])).
Proof.
  split; [ | split; [ | split]].
  - apply step_outcome.
  - intros cs st st' out1 e1 e2 out2 H.
    apply run_spaced in H. destruct H as [H _].
    eapply spaced_adjacent; eassumption.
  - intros m k now st H. rewrite trigger_fires by lia.
    eexists; split; reflexivity.
  - intros m k now st H. now apply trigger_blocked.
Qed.

End Cooldown.

(** A concrete run through the gate: with a cooldown of 10, a detection 5
    ticks after time 0 is suppressed. *)
Lemma cooldown_gate_witness :
  _trigger_idle (Fixture.make_detector 5 10 None) (lit "pattern")
    (lit "claude_code") 5 (initial_state 0) = (initial_state 0, []).
Proof.
  apply (proj2 (proj2 (proj2 (cooldown_gate (Fixture.make_detector 5 10 None))))).
  simpl. lia.
Defined.

(** ** The idle flag *)

Section IdleFlag.

Variable d : Detector.

Lemma run_app cs1 cs2 st :
  run d (cs1 ++ cs2) st =
    (fst (run d cs2 (fst (run d cs1 st))),
     snd (run d cs1 st) ++ snd (run d cs2 (fst (run d cs1 st)))).
Proof.
  revert st. induction cs1 as [ | c cs1 IH]; intros st; simpl.
  - now destruct (run d cs2 st).
  - destruct (step d c st) as [st1 out1]. rewrite IH.
    destruct (run d cs1 st1) as [st2 out2]. simpl.
    now rewrite app_assoc.
Qed.

Lemma run_single c st : run d [c] st = (fst (step d c st), snd (step d c st)).
Proof. simpl. destruct (step d c st). simpl. now rewrite app_nil_r. Qed.

Lemma run_snoc_state cs c st :
  fst (run d (cs ++ [c]) st) = fst (step d c (fst (run d cs st))).
Proof. rewrite run_app, run_single. reflexivity. Qed.

(** The three ways a call can leave the flag. *)
Lemma step_is_idle c st :
  (fires d c st /\ is_idle (fst (step d c st)) = true)
  \/ (~ fires d c st /\ is_output c = true /\ is_idle (fst (step d c st)) = false)
  \/ (~ fires d c st /\ is_output c = false
      /\ is_idle (fst (step d c st)) = is_idle st).
Proof.
  unfold fires. destruct c as [now raw | now]; simpl.
  - unfold feed_line.
    destruct (truthy (strip (strip_ansi raw))) eqn:Ht; simpl.
    + destruct (matched_tool d (strip (strip_ansi raw))) as [tool | ].
      * unfold _trigger_idle. simpl. destruct (_ <? _)%Z; simpl.
        -- right; left. auto.
        -- left. split; [discriminate | reflexivity].
      * right; left. auto.
    + right; right. auto.
  - unfold check_timeout. destruct (_ && _).
    + unfold _trigger_idle. destruct (_ <? _)%Z; simpl.
      * right; right. auto.
      * left. split; [discriminate | reflexivity].
    + right; right. auto.
Qed.

Lemma split_last (cs1 cs2 cs : list call) c0 c :
  cs1 ++ c0 :: cs2 = cs ++ [c] ->
  (cs2 = [] /\ c0 = c /\ cs1 = cs)
  \/ (exists cs2', cs2 = cs2' ++ [c] /\ cs = cs1 ++ c0 :: cs2').
Proof.
  destruct cs2 as [ | x cs2 _] using rev_ind; intros H.
  - left. change (cs1 ++ [c0] = cs ++ [c]) in H.
    apply app_inj_tail in H. tauto.
  - right. exists cs2.
    change (cs1 ++ (c0 :: cs2) ++ [x] = cs ++ [c]) in H.
    rewrite app_assoc in H. apply app_inj_tail in H.
    destruct H as [H1 H2]. subst. auto.
Qed.

Lemma quiet_snoc cs c : quiet (cs ++ [c]) <-> quiet cs /\ is_output c = false.
Proof.
  unfold quiet. rewrite Forall_app. split.
  - intros [H1 H2]. split; [assumption | now inversion H2].
  - intros [H1 H2]. split; [assumption | now constructor].
Qed.

(** The flag after a run: it was set before and nothing arrived, or some
    call fired and nothing arrived in a later call. *)
Lemma run_is_idle cs : forall st,
  is_idle (fst (run d cs st)) = true <->
  (is_idle st = true /\ quiet cs)
  \/ (exists cs1 c cs2,
        cs = cs1 ++ c :: cs2 /\ fires d c (fst (run d cs1 st)) /\ quiet cs2).
Proof.
  induction cs as [ | c cs IH] using rev_ind; intros st.
  - simpl. split.
    + intros H. left. split; [assumption | constructor].
    + intros [[H _] | (cs1 & c & cs2 & H & _)]; [assumption | ].
      now destruct cs1.
  - rewrite run_snoc_state.
    destruct (step_is_idle c (fst (run d cs st)))
      as [[Hf Hi] | [(Hf & Ho & Hi) | (Hf & Ho & Hi)]]; rewrite Hi.
    + split; [intros _ | reflexivity].
      right. exists cs, c, []. repeat split; [assumption | constructor].
    + split; [discriminate | ].
      intros [[_ Hq] | (cs1 & c0 & cs2 & Heq & Hfire & Hq)].
      * apply quiet_snoc in Hq. destruct Hq as [_ Hq]. congruence.
      * symmetry in Heq. apply split_last in Heq.
        destruct Heq as [(-> & -> & ->) | (cs2' & -> & ->)].
        -- contradiction.
        -- apply quiet_snoc in Hq. destruct Hq as [_ Hq]. congruence.
    + rewrite IH. split.
      * intros [[Hs Hq] | (cs1 & c0 & cs2 & -> & Hfire & Hq)].
        -- left. split; [assumption | ]. apply quiet_snoc. auto.
        -- right. exists cs1, c0, (cs2 ++ [c]). repeat split.
           ++ now rewrite <- app_assoc.
           ++ assumption.
           ++ apply quiet_snoc. auto.
      * intros [[Hs Hq] | (cs1 & c0 & cs2 & Heq & Hfire & Hq)].
        -- left. apply quiet_snoc in Hq. tauto.
        -- symmetry in Heq. apply split_last in Heq.
           destruct Heq as [(-> & -> & ->) | (cs2' & -> & ->)].
           ++ contradiction.
           ++ right. exists cs1, c0, cs2'. apply quiet_snoc in Hq. tauto.
Qed.

(** C2 (amended).  After a sequence of calls that ends with [feed_line]
    of a line that is not empty once stripped and trimmed, [is_idle] is
    true exactly when that last call itself invoked the idle callback, and
    false otherwise; and after any sequence of calls on a fresh detector,
    [is_idle] is true iff some call invoked the callback and no later
    call fed a non-empty line. *)
Theorem is_idle_after_run :
  (forall cs now raw_line st,
      is_output (Feed now raw_line) = true ->
      (is_idle (fst (run d (cs ++ [Feed now raw_line]) st)) = true
       <-> fires d (Feed now raw_line) (fst (run d cs st)))
      /\ (is_idle (fst (run d (cs ++ [Feed now raw_line]) st)) = false
          <-> ~ fires d (Feed now raw_line) (fst (run d cs st))))
  /\ (forall cs t0,
        is_idle (fst (run d cs (initial_state t0))) = true <->
        exists cs1 c cs2,
          cs = cs1 ++ c :: cs2
          /\ fires d c (fst (run d cs1 (initial_state t0)))
          /\ quiet cs2).
Proof.
  split.
  - intros cs now raw st Hout. rewrite run_snoc_state.
    destruct (step_is_idle (Feed now raw) (fst (run d cs st)))
      as [[Hf Hi] | [(Hf & Ho & Hi) | (Hf & Ho & Hi)]].
    + rewrite Hi. split; split; try tauto; discriminate.
    + rewrite Hi. split; split; try tauto; discriminate.
    + congruence.
  - intros cs t0. rewrite run_is_idle. split.
    + intros [[H _] | H]; [discriminate | assumption].
    + auto.
Qed.

End IdleFlag.

(** A prompt fed to a fresh detector of the test registry: the feed itself
    fires, and the flag is set when it returns. *)
Lemma is_idle_after_run_witness :
  is_output (Feed 100 (lit ">> ")) = true
  /\ is_idle (fst (run (Fixture.make_detector 5 0 None)
                     ([] ++ [Feed 100 (lit ">> ")]) (initial_state 0))) = true.
Proof.
  split; [reflexivity | ].
  apply (proj1 (is_idle_after_run (Fixture.make_detector 5 0 None))
           [] 100%Z (lit ">> ") (initial_state 0) eq_refl).
  unfold fires. vm_compute. discriminate.
Defined.

(** C2 as stated fails: the last call may be a non-empty feed and leave
    [is_idle] true, namely when the line matches an idle pattern. *)
Lemma is_idle_after_prompt_feed :
  ~ (forall (d : Detector) cs now raw_line st,
        is_output (Feed now raw_line) = true ->
        is_idle (fst (run d (cs ++ [Feed now raw_line]) st)) = false).
Proof.
  intros H.
  specialize (H (Fixture.make_detector 5 0 None) [] 100%Z (lit ">> ")
                (initial_state 0) eq_refl).
  vm_compute in H. discriminate.
Qed.

(** ** The timeout path *)

Section Timeout.

Variable d : Detector.

Lemma check_timeout_due now st :
  (timeout_seconds (registry d) <= now - last_output_time st)%Z ->
  is_idle st = false ->
  check_timeout d now st =
    _trigger_idle d (lit "timeout") (hint_or_unknown d) now st.
Proof.
  intros H1 H2. unfold check_timeout, hint_or_unknown. rewrite H2.
  destruct (Z.leb_spec (timeout_seconds (registry d)) (now - last_output_time st));
    [reflexivity | lia].
Qed.

Lemma check_timeout_not_due now st :
  ~ ((timeout_seconds (registry d) <= now - last_output_time st)%Z
     /\ is_idle st = false) ->
  check_timeout d now st = (st, []).
Proof.
  intros H. unfold check_timeout.
  destruct (Z.leb_spec (timeout_seconds (registry d)) (now - last_output_time st));
    [ | reflexivity].
  destruct (is_idle st); [reflexivity | ]. exfalso. apply H. auto.
Qed.

Lemma check_timeout_fires now st :
  snd (check_timeout d now st) <> [] <->
  (timeout_seconds (registry d) <= now - last_output_time st)%Z
  /\ is_idle st = false
  /\ (cooldown_seconds (registry d) <= now - last_idle_notification st)%Z.
Proof.
  split.
  - intros H.
    destruct (Z.le_gt_cases (timeout_seconds (registry d)) (now - last_output_time st))
      as [Ht | Ht].
    + destruct (is_idle st) eqn:Hi.
      * rewrite check_timeout_not_due in H by (rewrite Hi; intuition discriminate).
        now elim H.
      * rewrite check_timeout_due in H by assumption.
        destruct (Z.lt_ge_cases (now - last_idle_notification st)
                    (cooldown_seconds (registry d))) as [Hc | Hc].
        -- rewrite trigger_blocked in H by assumption. now elim H.
        -- auto.
    + rewrite check_timeout_not_due in H by lia. now elim H.
  - intros (Ht & Hi & Hc).
    rewrite check_timeout_due, trigger_fires by assumption. discriminate.
Qed.

Lemma check_timeout_event now st e :
  In e (snd (check_timeout d now st)) ->
  method e = lit "timeout" /\ tool_key e = hint_or_unknown d
  /\ at_time e = now /\ idle_seconds e = (now - last_output_time st)%Z
  /\ (timeout_seconds (registry d) <= idle_seconds e)%Z.
Proof.
  intros H.
  assert (Hne : snd (check_timeout d now st) <> [])
    by (intros E; rewrite E in H; inversion H).
  apply check_timeout_fires in Hne. destruct Hne as (Ht & Hi & Hc).
  rewrite check_timeout_due, trigger_fires in H by assumption.
  destruct H as [<- | []]. simpl. auto.
Qed.

(** Once idle, a check does nothing. *)
Lemma check_timeout_idle now st :
  is_idle st = true -> check_timeout d now st = (st, []).
Proof.
  intros H. apply check_timeout_not_due. rewrite H. intuition discriminate.
Qed.

(** C6.  [check_timeout] hands over to [_trigger_idle] with method
    ["timeout"] and tool key [tool_hint or "unknown"] when the time since
    the last output is at least [timeout_seconds] and [is_idle] is false,
    and does nothing otherwise; the callback is invoked iff moreover the
    cooldown has passed, and the call it makes carries that method and
    key; an elapsed time of exactly [timeout_seconds] triggers and a
    smaller one does not; and with [cooldown_seconds = 0], a feed of a
    non-empty line followed by three checks, the first at least
    [timeout_seconds] later, makes exactly one call, which is a
    ["timeout"] call when the line matched no pattern. *)
Theorem check_timeout_spec :
  (forall now st,
      (timeout_seconds (registry d) <= now - last_output_time st)%Z
      /\ is_idle st = false ->
      check_timeout d now st =
        _trigger_idle d (lit "timeout") (hint_or_unknown d) now st)
  /\ (forall now st,
        ~ ((timeout_seconds (registry d) <= now - last_output_time st)%Z
           /\ is_idle st = false) ->
        check_timeout d now st = (st, []))
  /\ (forall now st,
        snd (check_timeout d now st) <> [] <->
        (timeout_seconds (registry d) <= now - last_output_time st)%Z
        /\ is_idle st = false
        /\ (cooldown_seconds (registry d) <= now - last_idle_notification st)%Z)
  /\ (forall now st e,
        In e (snd (check_timeout d now st)) ->
        method e = lit "timeout" /\ tool_key e = hint_or_unknown d)
  /\ (forall now st,
        (now - last_output_time st = timeout_seconds (registry d))%Z ->
        is_idle st = false ->
        (cooldown_seconds (registry d) <= now - last_idle_notification st)%Z ->
        exists e, snd (check_timeout d now st) = [e]
                  /\ method e = lit "timeout"
                  /\ idle_seconds e = timeout_seconds (registry d))
  /\ (forall now st,
        (now - last_output_time st < timeout_seconds (registry d))%Z ->
        check_timeout d now st = (st, []))
  /\ (forall st t0 raw_line t1 t2 t3,
        cooldown_seconds (registry d) = 0%Z ->
        is_output (Feed t0 raw_line) = true ->
        (last_idle_notification st <= t0 <= t1)%Z ->
        (timeout_seconds (registry d) <= t1 - t0)%Z ->
        exists e,
          snd (run d [Feed t0 raw_line; Check t1; Check t2; Check t3] st) = [e]
          /\ (matched_tool d (strip (strip_ansi raw_line)) = None ->
              method e = lit "timeout" /\ at_time e = t1)).
Proof.
  split; [ | split; [ | split; [ | split; [ | split; [ | split]]]]].
  - intros now st [H1 H2]. now apply check_timeout_due.
  - apply check_timeout_not_due.
  - apply check_timeout_fires.
  - intros now st e H. apply check_timeout_event in H. tauto.
  - intros now st Ht Hi Hc.
    rewrite check_timeout_due, trigger_fires by (assumption || lia).
    eexists. split; [reflexivity | ]. simpl. auto.
  - intros now st H. apply check_timeout_not_due. lia.
  - intros st t0 raw t1 t2 t3 Hcd Hout Hord Hto.
    simpl in Hout. unfold run, step, feed_line. rewrite Hout. simpl negb. cbv iota.
    destruct (matched_tool d (strip (strip_ansi raw))) as [tool | ].
    + rewrite trigger_fires by (simpl; lia).
      rewrite !check_timeout_idle by reflexivity.
      eexists. split; [reflexivity | discriminate].
    + rewrite check_timeout_due by (simpl; (lia || reflexivity)).
      rewrite trigger_fires by (simpl; lia).
      rewrite !check_timeout_idle by reflexivity.
      eexists. split; [reflexivity | ]. auto.
Qed.

End Timeout.

(** The timeout scenario of the tests: timeout 1, cooldown 0, one line of
    output at time 100, then three checks from time 102 on. *)
Lemma check_timeout_spec_witness :
  exists e,
    snd (run (Fixture.make_detector 1 0 None)
           [Feed 100 (lit "Working..."); Check 102; Check 103; Check 104]
           (initial_state 100)) = [e]
    /\ (matched_tool (Fixture.make_detector 1 0 None)
          (strip (strip_ansi (lit "Working..."))) = None ->
        method e = lit "timeout" /\ at_time e = 102%Z).
Proof.
  apply (proj2 (proj2 (proj2 (proj2 (proj2 (proj2
           (check_timeout_spec (Fixture.make_detector 1 0 None)))))))).
  - reflexivity.
  - reflexivity.
  - simpl. lia.
  - simpl. lia.
Defined.

(** ** Idle time reported by the two paths *)

Section IdleSeconds.

Variable d : Detector.

Lemma feed_line_event now raw st e :
  In e (snd (feed_line d now raw st)) ->
  method e = lit "pattern" /\ idle_seconds e = 0%Z /\ at_time e = now.
Proof.
  unfold feed_line.
  destruct (negb (truthy (strip (strip_ansi raw)))); [intros [] | ].
  destruct (matched_tool d (strip (strip_ansi raw))) as [tool | ]; [ | intros []].
  unfold _trigger_idle. destruct (_ <? _)%Z; [intros [] | ].
  intros [<- | []]. simpl. repeat split. lia.
Qed.

Lemma run_event cs : forall st e,
  In e (snd (run d cs st)) ->
  (method e = lit "pattern" /\ idle_seconds e = 0%Z)
  \/ (method e = lit "timeout"
      /\ (timeout_seconds (registry d) <= idle_seconds e)%Z).
Proof.
  induction cs as [ | c cs IH]; simpl; intros st e H.
  - destruct H.
  - destruct (step d c st) as [st1 out1] eqn:E1.
    destruct (run d cs st1) as [st2 out2] eqn:E2.
    simpl in H. apply in_app_or in H. destruct H as [H | H].
    + destruct c as [now raw | now]; simpl in E1.
      * left. replace out1 with (snd (feed_line d now raw st)) in H by now rewrite E1.
        apply feed_line_event in H. tauto.
      * right. replace out1 with (snd (check_timeout d now st)) in H by now rewrite E1.
        apply check_timeout_event in H. tauto.
    + apply (IH st1). now rewrite E2.
Qed.

(** C10.  Every call [feed_line] makes to the idle callback is a
    ["pattern"] call with [idle_seconds] equal to 0; in any run, a
    ["pattern"] call reports 0, and a call that reports a positive
    [idle_seconds] is a ["timeout"] call. *)
Theorem pattern_idle_seconds_zero :
  (forall now raw_line st e,
      In e (snd (feed_line d now raw_line st)) ->
      method e = lit "pattern" /\ idle_seconds e = 0%Z)
  /\ (forall cs st e,
        In e (snd (run d cs st)) ->
        method e = lit "pattern" -> idle_seconds e = 0%Z)
  /\ (forall cs st e,
        In e (snd (run d cs st)) ->
        (0 < idle_seconds e)%Z -> method e = lit "timeout").
Proof.
  split; [ | split].
  - intros now raw st e H. apply feed_line_event in H. tauto.
  - intros cs st e H Hm. apply run_event in H.
    destruct H as [[_ H] | [H _]]; [assumption | ].
    rewrite H in Hm. discriminate.
  - intros cs st e H Hpos. apply run_event in H.
    destruct H as [[_ H] | [H _]]; [lia | assumption].
Qed.

End IdleSeconds.

(** The three lines of the pattern scenario: the call made for the prompt
    reports no idle time. *)
Lemma pattern_idle_seconds_zero_witness :
  exists e,
    snd (run (Fixture.make_detector 5 0 None)
           [Feed 100 (lit "Some normal output");
            Feed 101 (lit "More output here");
            Feed 103 (lit ">> ")] (initial_state 90)) = [e]
    /\ method e = lit "pattern" /\ idle_seconds e = 0%Z.
Proof.
  eexists. split; [vm_compute; reflexivity | ].
  split; [reflexivity | ].
  apply (proj1 (proj2 (pattern_idle_seconds_zero (Fixture.make_detector 5 0 None)))
           [Feed 100 (lit "Some normal output");
            Feed 101 (lit "More output here");
            Feed 103 (lit ">> ")] (initial_state 90)).
  - vm_compute. left. reflexivity.
  - reflexivity.
Defined.

(** ** Stripping before matching *)

Lemma in_range_27 c : c <> 27%N -> in_range 27 27 c = false.
Proof.
  intros H. unfold in_range.
  destruct (N.leb_spec 27 c), (N.leb_spec c 27); try reflexivity. lia.
Qed.

(** No alternative of [_ANSI_RE] starts a match at a character other than
    ESC, or at the end of the text. *)
Lemma ansi_no_match i t :
  match t with [] => True | c :: _ => c <> 27%N end ->
  forall must_advance, Re.match_at _ANSI_RE i t must_advance = None.
Proof.
  intros H must_advance. unfold Re.match_at, _ANSI_RE, Re.chr. simpl.
  destruct t as [ | c t]; [reflexivity | ].
  unfold Re.in_class. simpl. rewrite (in_range_27 c H). reflexivity.
Qed.

Lemma sub_go_no_escape repl t : forall i,
  no_escape t -> Re.sub_go _ANSI_RE repl i t 0 = t.
Proof.
  induction t as [ | c t IH]; intros i H.
  - reflexivity.
  - inversion H as [ | ? ? Hc Ht]; subst.
    cbn [Re.sub_go]. rewrite ansi_no_match by exact Hc.
    now rewrite IH.
Qed.

Lemma strip_ansi_no_escape text : no_escape text -> strip_ansi text = text.
Proof. apply sub_go_no_escape. Qed.

Lemma str_eqb_eq a : forall b, Str.eqb a b = true -> a = b.
Proof.
  induction a as [ | x a IH]; intros [ | y b]; simpl; try discriminate; auto.
  intros H. apply andb_prop in H. destruct H as [Hx Hab].
  apply N.eqb_eq in Hx. apply IH in Hab. congruence.
Qed.

Lemma matches_found tool line :
  matches tool line = true <->
  exists P, In P (patterns tool) /\ Re.found P line = true.
Proof. unfold matches. apply existsb_exists. Qed.

Lemma get_In k items tool :
  get k items = Some tool -> In (k, tool) items.
Proof.
  unfold get. destruct (find _ items) as [[k' tool'] | ] eqn:E; [ | discriminate].
  intros H. inversion H; subst. apply find_some in E. destruct E as [Hin Heq].
  apply str_eqb_eq in Heq. now subst.
Qed.

Lemma match_items_In items line k :
  match_items items line = Some k ->
  exists tool, In (k, tool) items /\ matches tool line = true.
Proof.
  induction items as [ | [k' tool'] items IH]; simpl; [discriminate | ].
  destruct (matches tool' line) eqn:E.
  - intros H. inversion H; subst. exists tool'. auto.
  - intros H. destruct (IH H) as (tool & Hin & Hm). exists tool. auto.
Qed.

Section Stripping.

Variable d : Detector.

Lemma matched_tool_pattern clean k :
  matched_tool d clean = Some k ->
  exists tool P, In (k, tool) (tools (registry d))
                 /\ In P (patterns tool) /\ Re.found P clean = true.
Proof.
  unfold matched_tool.
  assert (Hany : match_any (registry d) clean = Some k ->
                 exists tool P, In (k, tool) (tools (registry d))
                                /\ In P (patterns tool) /\ Re.found P clean = true).
  { intros H. apply match_items_In in H. destruct H as (tool & Hin & Hm).
    apply matches_found in Hm. destruct Hm as (P & HP & Hf). eauto. }
  destruct (tool_hint d) as [hint | ]; [ | exact Hany].
  destruct (truthy hint && has_key hint (tools (registry d))); [ | exact Hany].
  destruct (get hint (tools (registry d))) as [tool | ] eqn:Eg; [ | exact Hany].
  destruct (matches tool clean) eqn:Em; [ | exact Hany].
  intros H. inversion H; subst.
  apply get_In in Eg. apply matches_found in Em. destruct Em as (P & HP & Hf).
  eauto.
Qed.

Lemma feed_line_decision now raw st e :
  In e (snd (feed_line d now raw st)) -> decision d raw = Some (tool_key e).
Proof.
  unfold feed_line, decision.
  destruct (negb (truthy (strip (strip_ansi raw)))); [intros [] | ].
  destruct (matched_tool d (strip (strip_ansi raw))) as [tool | ]; [ | intros []].
  unfold _trigger_idle. destruct (_ <? _)%Z; [intros [] | ].
  intros [<- | []]. reflexivity.
Qed.

(** C3 (amended).  What [feed_line] does with a line depends only on the
    line stripped once of ANSI sequences and trimmed: every pattern is
    searched in that text, and the tool of a call it makes has a pattern
    found there.  Stripping the line beforehand changes neither the tool
    matched nor anything else [feed_line] does, provided stripping a second
    time leaves the same trimmed text, which is the case when the stripped
    line holds no ESC character. *)
Theorem feed_line_prestripped :
  (forall now raw1 raw2 st,
      strip (strip_ansi raw1) = strip (strip_ansi raw2) ->
      feed_line d now raw1 st = feed_line d now raw2 st
      /\ decision d raw1 = decision d raw2)
  /\ (forall now raw st e,
        In e (snd (feed_line d now raw st)) ->
        decision d raw = Some (tool_key e)
        /\ exists tool P,
            In (tool_key e, tool) (tools (registry d))
            /\ In P (patterns tool)
            /\ Re.found P (strip (strip_ansi raw)) = true)
  /\ (forall now raw st,
        strip (strip_ansi (strip_ansi raw)) = strip (strip_ansi raw) ->
        feed_line d now (strip_ansi raw) st = feed_line d now raw st
        /\ decision d (strip_ansi raw) = decision d raw)
  /\ (forall raw,
        no_escape (strip_ansi raw) ->
        strip (strip_ansi (strip_ansi raw)) = strip (strip_ansi raw)).
Proof.
  assert (Hclean : forall now raw1 raw2 st,
             strip (strip_ansi raw1) = strip (strip_ansi raw2) ->
             feed_line d now raw1 st = feed_line d now raw2 st
             /\ decision d raw1 = decision d raw2).
  { intros now raw1 raw2 st H. unfold feed_line, decision. now rewrite H. }
  split; [exact Hclean | split; [ | split]].
  - intros now raw st e H. pose proof (feed_line_decision _ _ _ _ H) as Hd.
    split; [assumption | ].
    unfold decision in Hd.
    destruct (negb (truthy (strip (strip_ansi raw)))); [discriminate | ].
    now apply matched_tool_pattern.
  - intros now raw st H. now apply Hclean.
  - intros raw H. now rewrite (strip_ansi_no_escape _ H).
Qed.

End Stripping.

(** A line whose colour codes are well formed: stripping it beforehand
    changes nothing. *)
Lemma feed_line_prestripped_witness :
  feed_line (Fixture.make_detector 5 0 None) 100
    (strip_ansi ([Fixture.ESC] ++ lit "[32m>> " ++ [Fixture.ESC] ++ lit "[0m"))
    (initial_state 0)
  = feed_line (Fixture.make_detector 5 0 None) 100
      ([Fixture.ESC] ++ lit "[32m>> " ++ [Fixture.ESC] ++ lit "[0m")
      (initial_state 0).
Proof.
  apply (proj1 (proj2 (proj2 (feed_line_prestripped (Fixture.make_detector 5 0 None))))).
  vm_compute. reflexivity.
Defined.

(** C3 as stated fails: one pass of [_ANSI_RE] over
    [">>\x1b\x1b[0m[0m"] leaves [">>\x1b[0m"], which the prompt pattern
    does not match, while a second pass leaves [">>"], which it does. *)
Lemma prestripping_changes_decision :
  ~ (forall (d : Detector) raw_line,
        decision d (strip_ansi raw_line) = decision d raw_line).
Proof.
  intros H.
  specialize (H (Fixture.make_detector 5 0 None) Fixture.nested_reset).
  vm_compute in H. discriminate.
Qed.

(** ** Redaction of the ring *)

Lemma sub_go_not_found r repl t : forall i,
  Re.search_from r i t = None -> Re.sub_go r repl i t 0 = t.
Proof.
  induction t as [ | c t IH]; intros i H; cbn [Re.search_from] in H;
    destruct (Re.match_at r i _ false) eqn:E; try discriminate;
    cbn [Re.sub_go]; rewrite E.
  - reflexivity.
  - now rewrite IH.
Qed.

(** A pattern that is not found leaves the line as it is. *)
Lemma sub_not_found r repl line :
  Re.found r line = false -> Re.sub r repl line = line.
Proof.
  unfold Re.found, Re.search, Re.sub. intros H. apply sub_go_not_found.
  now destruct (Re.search_from r 0 line).
Qed.

Lemma deque_append_last x buf :
  exists older, deque_append x buf = older ++ [x].
Proof. unfold deque_append. destruct (_ <? _); eauto. Qed.

Lemma deque_append_In x buf entry :
  In entry (deque_append x buf) -> entry = x \/ In entry buf.
Proof.
  unfold deque_append. destruct (_ <? _); intros H; apply in_app_or in H;
    destruct H as [H | [H | []]]; auto.
  right. destruct buf; [destruct H | now right].
Qed.

Section Redaction.

Variable d : Detector.

Lemma trigger_buffer m k now st :
  output_buffer (fst (_trigger_idle d m k now st)) = output_buffer st.
Proof. unfold _trigger_idle. now destruct (_ <? _)%Z. Qed.

Lemma feed_line_buffer now raw st :
  output_buffer (fst (feed_line d now raw st)) =
    if truthy (strip (strip_ansi raw))
    then deque_append (ring_entry d raw) (output_buffer st)
    else output_buffer st.
Proof.
  unfold feed_line, ring_entry.
  destruct (truthy (strip (strip_ansi raw))); simpl; [ | reflexivity].
  destruct (matched_tool d (strip (strip_ansi raw))); [ | reflexivity].
  now rewrite trigger_buffer.
Qed.

Lemma check_timeout_buffer now st :
  output_buffer (fst (check_timeout d now st)) = output_buffer st.
Proof.
  unfold check_timeout. destruct (_ && _); [ | reflexivity].
  apply trigger_buffer.
Qed.

Lemma run_buffer cs : forall st entry,
  In entry (output_buffer (fst (run d cs st))) ->
  In entry (output_buffer st)
  \/ exists raw, In raw (fed cs)
                 /\ truthy (strip (strip_ansi raw)) = true
                 /\ entry = ring_entry d raw.
Proof.
  induction cs as [ | c cs IH]; intros st entry H.
  - now left.
  - simpl in H. destruct (step d c st) as [st1 out1] eqn:E1.
    destruct (run d cs st1) as [st2 out2] eqn:E2. simpl in H.
    assert (H2 : In entry (output_buffer (fst (run d cs st1)))) by now rewrite E2.
    apply IH in H2. destruct H2 as [H2 | (raw & Hin & Ht & He)].
    + destruct c as [now raw | now]; simpl in E1.
      * replace st1 with (fst (feed_line d now raw st)) in H2 by now rewrite E1.
        rewrite feed_line_buffer in H2.
        destruct (truthy (strip (strip_ansi raw))) eqn:Ht; [ | now left].
        apply deque_append_In in H2. destruct H2 as [-> | H2]; [ | now left].
        right. exists raw. simpl. auto.
      * replace st1 with (fst (check_timeout d now st)) in H2 by now rewrite E1.
        rewrite check_timeout_buffer in H2. now left.
    + right. exists raw. split; [ | auto].
      destruct c; simpl; auto.
Qed.

(** C4 (amended).  The entry [feed_line] puts in the ring for a line is
    the line stripped of ANSI sequences and trimmed, passed through the
    redaction patterns in order, each replacing what it matches in a
    left-to-right scan by ["[REDACTED]"]; it goes to the end of the ring,
    and lines that are empty once cleaned store nothing; every entry of
    the ring of a detector that started empty is such an entry of a line
    that was fed; a pattern that is not found in a line leaves it as it
    is. *)
Theorem ring_entries_redacted :
  (forall raw,
      ring_entry d raw =
        fold_left (fun line pat => Re.sub pat (lit "[REDACTED]") line)
          (_redact_patterns d) (strip (strip_ansi raw)))
  /\ (forall now raw st,
        is_output (Feed now raw) = true ->
        exists older,
          output_buffer (fst (feed_line d now raw st)) = older ++ [ring_entry d raw])
  /\ (forall now raw st,
        is_output (Feed now raw) = false ->
        output_buffer (fst (feed_line d now raw st)) = output_buffer st)
  /\ (forall cs t0 entry,
        In entry (output_buffer (fst (run d cs (initial_state t0)))) ->
        exists raw, In raw (fed cs)
                    /\ truthy (strip (strip_ansi raw)) = true
                    /\ entry = ring_entry d raw)
  /\ (forall P line,
        Re.found P line = false -> Re.sub P (lit "[REDACTED]") line = line).
Proof.
  split; [ | split; [ | split; [ | split]]].
  - reflexivity.
  - intros now raw st H. simpl in H. rewrite feed_line_buffer, H.
    apply deque_append_last.
  - intros now raw st H. simpl in H. now rewrite feed_line_buffer, H.
  - intros cs t0 entry H. apply run_buffer in H.
    destruct H as [[] | H]. exact H.
  - intros P line. apply sub_not_found.
Qed.

End Redaction.

(** The ring after a line with an upper-case key went through the
    redaction of upper-case keys. *)
Lemma ring_entries_redacted_witness :
  exists older,
    output_buffer (fst (feed_line Fixture.detector_redacting_keys 100
                          (lit "key ABC123") (initial_state 0)))
    = older ++ [lit "key [REDACTED]"].
Proof.
  apply (proj1 (proj2 (ring_entries_redacted Fixture.detector_redacting_keys))
           100%Z (lit "key ABC123") (initial_state 0)).
  reflexivity.
Defined.

(** C4 as stated fails: the replacement text is itself open to the
    patterns.  With [[A-Z0-9]+] among them, the entry stored for
    ["key ABC123"] is ["key [REDACTED]"], in which the pattern is found. *)
Lemma redaction_pattern_found_in_ring :
  ~ (forall (d : Detector) now raw_line t0 R entry,
        In R (_redact_patterns d) ->
        In entry (output_buffer (fst (feed_line d now raw_line (initial_state t0)))) ->
        Re.found R entry = false).
Proof.
  intros H.
  specialize (H Fixture.detector_redacting_keys 100%Z (lit "key ABC123") 0%Z
                Fixture.upper_key (lit "key [REDACTED]")).
  assert (E : Re.found Fixture.upper_key (lit "key [REDACTED]") = false).
  { apply H; vm_compute; left; reflexivity. }
  vm_compute in E. discriminate.
Qed.

(** ** Which tool is matched *)

Lemma match_items_first items line k :
  match_items items line = Some k <->
  exists pre tool post,
    items = pre ++ (k, tool) :: post
    /\ matches tool line = true
    /\ Forall (fun kt => matches (snd kt) line = false) pre.
Proof.
  induction items as [ | [k' tool'] items IH]; simpl.
  - split; [discriminate | ].
    intros (pre & tool & post & H & _). now destruct pre.
  - destruct (matches tool' line) eqn:E.
    + split.
      * intros H. inversion H; subst. exists [], tool', items. auto.
      * intros (pre & tool & post & H & Hm & Hpre).
        destruct pre as [ | [k0 t0] pre]; simpl in H; inversion H; subst.
        -- reflexivity.
        -- inversion Hpre; subst. simpl in *. congruence.
    + rewrite IH. split.
      * intros (pre & tool & post & -> & Hm & Hpre).
        exists ((k', tool') :: pre), tool, post. repeat split; auto.
      * intros (pre & tool & post & H & Hm & Hpre).
        destruct pre as [ | [k0 t0] pre]; simpl in H; inversion H; subst.
        -- congruence.
        -- inversion Hpre; subst. exists pre, tool, post. auto.
Qed.

Lemma match_items_none items line :
  match_items items line = None <->
  forall k tool P, In (k, tool) items -> In P (patterns tool) ->
                   Re.found P line = false.
Proof.
  induction items as [ | [k' tool'] items IH]; simpl.
  - split; [intros _ k tool P [] | reflexivity].
  - destruct (matches tool' line) eqn:E.
    + split; [discriminate | ]. intros H.
      apply matches_found in E. destruct E as (P & HP & Hf).
      rewrite (H k' tool' P) in Hf; auto. discriminate.
    + rewrite IH. split.
      * intros H k tool P [Heq | Hin] HP.
        -- inversion Heq; subst.
           destruct (Re.found P line) eqn:Ef; [ | reflexivity].
           assert (matches tool line = true) by (apply matches_found; eauto).
           congruence.
        -- eapply H; eassumption.
      * intros H k tool P Hin. apply (H k). now right.
Qed.

Lemma get_has_key k items tool :
  get k items = Some tool -> has_key k items = true.
Proof.
  unfold get, has_key.
  destruct (find _ items) as [[k' tool'] | ] eqn:E; [ | discriminate].
  intros _. apply find_some in E. destruct E as [Hin Heq].
  apply existsb_exists. exists (k', tool'). auto.
Qed.

(** C5 (amended).  [match_any] returns the key of the first tool, in the
    order of the registry, one of whose patterns is found in the line, and
    [None] iff no pattern of any tool is found; it is a total function.
    In [feed_line], when the tool hint is a non-empty string that is a key
    of the registry and one of the patterns of its tool is found, the hint
    is the matched key, whatever the other tools; when there is no hint or
    the hint is empty, the matched key is the one of [match_any]. *)
Theorem match_any_first :
  (forall registry line k,
      match_any registry line = Some k <->
      exists pre tool post,
        tools registry = pre ++ (k, tool) :: post
        /\ matches tool line = true
        /\ Forall (fun kt => matches (snd kt) line = false) pre)
  /\ (forall registry line,
        match_any registry line = None <->
        forall k tool P, In (k, tool) (tools registry) -> In P (patterns tool) ->
                         Re.found P line = false)
  /\ (forall d hint tool clean,
        tool_hint d = Some hint ->
        hint <> [] ->
        get hint (tools (registry d)) = Some tool ->
        matches tool clean = true ->
        matched_tool d clean = Some hint)
  /\ (forall d clean,
        tool_hint d = None \/ tool_hint d = Some [] ->
        matched_tool d clean = match_any (registry d) clean).
Proof.
  split; [ | split; [ | split]].
  - intros registry line k. apply match_items_first.
  - intros registry line. apply match_items_none.
  - intros d hint tool clean Hh Hne Hg Hm. unfold matched_tool.
    rewrite Hh, (get_has_key _ _ _ Hg), Hg, Hm.
    destruct hint; [congruence | reflexivity].
  - intros d clean [H | H]; unfold matched_tool; rewrite H; reflexivity.
Qed.

(** The hinted tool wins over a tool that comes first in the registry. *)
Lemma match_any_first_witness :
  matched_tool (Fixture.make_detector 5 0 (Some (lit "codex"))) (lit "codex>")
  = Some (lit "codex").
Proof.
  apply (proj1 (proj2 (proj2 match_any_first))
           (Fixture.make_detector 5 0 (Some (lit "codex"))) (lit "codex")
           Fixture.codex (lit "codex>")).
  - reflexivity.
  - discriminate.
  - reflexivity.
  - reflexivity.
Defined.

(** C5 as stated fails for the empty hint: [if self.tool_hint and ...]
    treats it as no hint, so a tool registered under the empty key is not
    tested first and
    the first tool of the registry that matches is returned. *)
Lemma empty_hint_not_tested_first :
  ~ (forall (d : Detector) hint tool clean,
        tool_hint d = Some hint ->
        get hint (tools (registry d)) = Some tool ->
        matches tool clean = true ->
        matched_tool d clean = Some hint).
Proof.
  intros H.
  specialize (H Fixture.detector_with_empty_hint [] Fixture.anonymous (lit ">>")
                eq_refl eq_refl eq_refl).
  vm_compute in H. discriminate.
Qed.

(** ** Escaping for the notifier *)

Import Notifier.

Lemma replace_single a new s :
  replace [a] new s = flat_map (fun c => if N.eqb a c then new else [c]) s.
Proof.
  unfold replace. induction s as [ | c s IH]; [reflexivity | ].
  cbn [replace_go is_prefix flat_map length Nat.sub].
  rewrite andb_true_r. destruct (N.eqb a c); rewrite IH; reflexivity.
Qed.

Lemma flat_map_compose {A B C} (f : A -> list B) (g : B -> list C) l :
  flat_map g (flat_map f l) = flat_map (fun x => flat_map g (f x)) l.
Proof.
  induction l as [ | x l IH]; simpl; [reflexivity | ].
  now rewrite flat_map_app, IH.
Qed.

Lemma sanitize_flat_map text : _sanitize text = flat_map escape text.
Proof.
  unfold _sanitize. rewrite !replace_single, !flat_map_compose.
  apply flat_map_ext. intros c. unfold escape, BACKSLASH, QUOTE, RETURN_SYMBOL.
  destruct (N.eqb_spec c 92) as [-> | H1]; [reflexivity | ].
  replace (N.eqb 92 c) with false by (symmetry; apply N.eqb_neq; congruence).
  cbn [flat_map app].
  destruct (N.eqb_spec c 34) as [-> | H2]; [reflexivity | ].
  replace (N.eqb 34 c) with false by (symmetry; apply N.eqb_neq; congruence).
  cbn [flat_map app].
  destruct (N.eqb_spec c 10) as [-> | H3]; [reflexivity | ].
  replace (N.eqb 10 c) with false by (symmetry; apply N.eqb_neq; congruence).
  reflexivity.
Qed.

(** C8.  [_sanitize] replaces backslashes first, then double quotes, then
    newlines; its net effect is to turn every backslash into two, every
    double quote into backslash and quote, and every newline into the
    return symbol between two spaces.  A double quote alone becomes
    backslash, quote; a backslash alone becomes two backslashes;
    backslash, quote becomes backslash, backslash, backslash, quote, which
    the other order of the two replacements would not give; and applying
    [_sanitize] twice is not the same as applying it once. *)
Theorem sanitize_escapes :
  (forall text,
      _sanitize text =
        replace [10%N] [32%N; RETURN_SYMBOL; 32%N]
          (replace [QUOTE] [BACKSLASH; QUOTE]
             (replace [BACKSLASH] [BACKSLASH; BACKSLASH] text)))
  /\ (forall text, _sanitize text = flat_map escape text)
  /\ _sanitize [QUOTE] = [BACKSLASH; QUOTE]
  /\ _sanitize [BACKSLASH] = [BACKSLASH; BACKSLASH]
  /\ _sanitize [BACKSLASH; QUOTE] = [BACKSLASH; BACKSLASH; BACKSLASH; QUOTE]
  /\ replace [BACKSLASH] [BACKSLASH; BACKSLASH]
       (replace [QUOTE] [BACKSLASH; QUOTE] [BACKSLASH; QUOTE])
     <> _sanitize [BACKSLASH; QUOTE]
  /\ _sanitize [10%N] = [32%N; RETURN_SYMBOL; 32%N]
  /\ exists s, _sanitize (_sanitize s) <> _sanitize s.
Proof.
  split; [reflexivity | ].
  split; [exact sanitize_flat_map | ].
  repeat split; try reflexivity.
  - vm_compute. discriminate.
  - exists [QUOTE]. vm_compute. discriminate.
Qed.

(** Escaping the text [say "hi"] once. *)
Lemma sanitize_escapes_witness :
  _sanitize (lit "say " ++ [QUOTE] ++ lit "hi" ++ [QUOTE])
  = flat_map escape (lit "say " ++ [QUOTE] ++ lit "hi" ++ [QUOTE]).
Proof.
  apply (proj1 (proj2 sanitize_escapes)).
Defined.

(** ** The event hub *)

Import Hub.

Lemma slice_from_neg {A} (n : nat) (l : list A) :
  (0 < n)%nat -> slice_from (- Z.of_nat n) l = last_n n l.
Proof.
  intros H. unfold slice_from, last_n.
  destruct (Z.ltb_spec (- Z.of_nat n) 0); [ | lia].
  f_equal. lia.
Qed.

Lemma slice_from_zero {A} (l : list A) : slice_from 0 l = l.
Proof.
  unfold slice_from. simpl. rewrite Z.min_l by lia. reflexivity.
Qed.

Lemma broadcast_data server_time send_ok data conns :
  exists server_time',
    snd (broadcast server_time send_ok data conns) =
      {| ev_type := ev_type data;
         ev_session_id := ev_session_id data;
         ev_tool_name := ev_tool_name data;
         ev_working_dir := ev_working_dir data;
         ev_last_output := ev_last_output data;
         ev_idle_seconds := ev_idle_seconds data;
         ev_detection_method := ev_detection_method data;
         ev_timestamp := ev_timestamp data;
         ev_server_time := server_time' |}.
Proof.
  unfold broadcast. destruct conns; simpl.
  - exists (ev_server_time data). now destruct data.
  - eexists. reflexivity.
Qed.

(** What [POST /api/events] leaves behind: the event at the end of the
    history, the oldest entry gone if the history was full; the session
    record of the event, idle, with that same event; the other sessions
    untouched; and the answer ["ok"] with the number of connections left. *)
Lemma receive_event_effect event timestamp server_time send_ok h :
  exists e,
    ev_type e = lit "idle_detected"
    /\ ev_session_id e = session_id event
    /\ ev_tool_name e = tool_name event
    /\ ev_working_dir e = working_dir event
    /\ ev_last_output e = last_output event
    /\ ev_idle_seconds e = idle_seconds event
    /\ ev_detection_method e = detection_method event
    /\ ev_timestamp e = timestamp
    /\ event_history (fst (receive_event event timestamp server_time send_ok h))
       = (if length (event_history h) <? MAX_HISTORY
          then event_history h else tl (event_history h)) ++ [e]
    /\ sessions (fst (receive_event event timestamp server_time send_ok h))
         !! session_id event
       = Some {| s_session_id := session_id event;
                 s_tool_name := tool_name event;
                 s_working_dir := working_dir event;
                 s_status := lit "idle";
                 s_command := None;
                 s_registered_at := None;
                 s_last_event := Some e |}
    /\ (forall k, k <> session_id event ->
          sessions (fst (receive_event event timestamp server_time send_ok h)) !! k
          = sessions h !! k)
    /\ status (snd (receive_event event timestamp server_time send_ok h)) = lit "ok"
    /\ clients_notified (snd (receive_event event timestamp server_time send_ok h))
       = client_count (fst (receive_event event timestamp server_time send_ok h)).
Proof.
  unfold receive_event.
  match goal with
  | |- context [broadcast server_time send_ok ?data ?conns] =>
      destruct (broadcast_data server_time send_ok data conns) as [st' Hd];
      destruct (broadcast server_time send_ok data conns) as [conns' e]
  end.
  simpl in Hd. exists e. subst e. cbn [fst snd sessions event_history status
    clients_notified ev_type ev_session_id ev_tool_name ev_working_dir
    ev_last_output ev_idle_seconds ev_detection_method ev_timestamp].
  repeat split.
  - rewrite length_app. cbn [length]. unfold MAX_HISTORY.
    destruct (Nat.ltb_spec 100 (length (event_history h) + 1)),
             (Nat.ltb_spec (length (event_history h)) 100); try lia.
    + destruct (event_history h); [simpl in *; lia | reflexivity].
    + reflexivity.
  - apply lookup_insert_eq.
  - intros k Hk. apply lookup_insert_ne. congruence.
Qed.

Lemma post_history_bounded p h :
  length (event_history h) <= MAX_HISTORY ->
  length (event_history (post p h)) <= MAX_HISTORY.
Proof.
  intros H. unfold post.
  destruct (receive_event_effect (post_event p) (post_timestamp p)
              (post_server_time p) (post_send_ok p) h)
    as (e & _ & _ & _ & _ & _ & _ & _ & _ & Hh & _).
  rewrite Hh, length_app. cbn [length]. unfold MAX_HISTORY in *.
  destruct (Nat.ltb_spec (length (event_history h)) 100); [lia | ].
  destruct (event_history h); simpl in *; lia.
Qed.

(** The history never holds more than 100 entries. *)
Lemma history_bounded ps :
  length (event_history (posts ps initial)) <= MAX_HISTORY.
Proof.
  unfold posts.
  assert (H : forall h, length (event_history h) <= MAX_HISTORY ->
                        length (event_history (fold_left (fun h p => post p h) ps h))
                        <= MAX_HISTORY).
  { induction ps as [ | p ps IH]; intros h Hh; simpl; [assumption | ].
    apply IH. now apply post_history_bounded. }
  apply H. simpl. unfold MAX_HISTORY. lia.
Qed.

(** For a positive [limit], [GET /api/events] returns the last [limit]
    entries of the history in their order, all of them when there are
    fewer; the default limit is 20. *)
Lemma list_events_positive limit h :
  (0 < limit)%Z ->
  list_events limit h = last_n (Z.to_nat limit) (event_history h).
Proof.
  intros H. unfold list_events.
  rewrite <- (Z2Nat.id limit) at 1 by lia.
  apply slice_from_neg. lia.
Qed.

(** C9.  [GET /api/events?limit=0] does not return the last 0 entries:
    [event_history[-0:]] is the whole history.  After two posts to a fresh
    hub it returns both events. *)
Theorem list_events_limit_zero :
  (forall h, list_events 0 h = event_history h)
  /\ (forall p1 p2,
        length (list_events 0 (posts [p1; p2] initial)) = 2
        /\ last_n 0 (event_history (posts [p1; p2] initial)) = []).
Proof.
  split.
  - intros h. unfold list_events. apply slice_from_zero.
  - intros p1 p2. unfold list_events. rewrite slice_from_zero.
    unfold posts. cbn [fold_left].
    destruct (receive_event_effect (post_event p1) (post_timestamp p1)
                (post_server_time p1) (post_send_ok p1) initial)
      as (e1 & _ & _ & _ & _ & _ & _ & _ & _ & H1 & _).
    destruct (receive_event_effect (post_event p2) (post_timestamp p2)
                (post_server_time p2) (post_send_ok p2) (post p1 initial))
      as (e2 & _ & _ & _ & _ & _ & _ & _ & _ & H2 & _).
    assert (L1 : length (event_history (post p1 initial)) = 1).
    { unfold post. rewrite H1. reflexivity. }
    unfold post at 1. rewrite H2, L1.
    change (1 <? MAX_HISTORY) with true. cbv iota.
    rewrite length_app, L1.
    split; [reflexivity | ].
    unfold last_n. cbn [length Nat.sub skipn]. reflexivity.
Qed.

(** ** Line assembly *)

Import Watcher.

Local Arguments N.eqb : simpl never.

Lemma split_nonempty sep s : split sep s <> [].
Proof.
  destruct s as [ | c s]; simpl; [discriminate | ].
  destruct (N.eqb c sep); [discriminate | ].
  destruct (split sep s); discriminate.
Qed.

Lemma contains_false_split s :
  contains_char NL s = false -> split NL s = [s].
Proof.
  unfold contains_char. induction s as [ | c s IH]; simpl; [reflexivity | ].
  intros H. apply orb_false_elim in H. destruct H as [Hc Hs].
  rewrite N.eqb_sym, Hc, (IH Hs). reflexivity.
Qed.

Lemma contains_true_split_first s :
  contains_char NL s = true ->
  exists line rest, split_first NL s = Some (line, rest).
Proof.
  unfold contains_char. induction s as [ | c s IH]; simpl; [discriminate | ].
  rewrite (N.eqb_sym NL c). destruct (N.eqb c NL); [eauto | ].
  simpl. intros H. destruct (IH H) as (line & rest & E). rewrite E. eauto.
Qed.

Lemma split_first_split s : forall line rest,
  split_first NL s = Some (line, rest) ->
  split NL s = line :: split NL rest /\ length rest < length s.
Proof.
  induction s as [ | c s IH]; simpl; [discriminate | ].
  intros line rest. destruct (N.eqb c NL).
  - intros H. inversion H; subst. split; [reflexivity | lia].
  - destruct (split_first NL s) as [[a b] | ]; [ | discriminate].
    intros H. inversion H; subst.
    destruct (IH a rest eq_refl) as [E L]. rewrite E. split; [reflexivity | lia].
Qed.

Lemma last_split_no_newline s :
  contains_char NL (List.last (split NL s) []) = false.
Proof.
  induction s as [ | c s IH]; [reflexivity | ].
  simpl split. destruct (N.eqb c NL) eqn:Ec.
  - pose proof (split_nonempty NL s).
    destruct (split NL s) eqn:E; [congruence | exact IH].
  - pose proof (split_nonempty NL s).
    destruct (split NL s) as [ | l [ | l' ls]] eqn:E; [congruence | | exact IH].
    simpl in *. unfold contains_char in *. simpl.
    rewrite N.eqb_sym, Ec, IH. reflexivity.
Qed.

(** Splitting a text in two parts and splitting the parts. *)
Lemma split_app a b :
  split NL (a ++ b) =
    removelast (split NL a) ++ split NL (List.last (split NL a) [] ++ b).
Proof.
  induction a as [ | c a IH]; [reflexivity | ].
  pose proof (split_nonempty NL a) as Hne.
  cbn [app split]. destruct (N.eqb c NL) eqn:Ec.
  - rewrite IH. destruct (split NL a) eqn:E; [congruence | reflexivity].
  - rewrite IH. destruct (split NL a) as [ | l [ | l' ls]] eqn:E; [congruence | | ].
    + cbn [removelast List.last app split]. rewrite Ec. reflexivity.
    + reflexivity.
Qed.

Lemma last_of_app {A} (l1 l2 : list A) d :
  l2 <> [] -> List.last (l1 ++ l2) d = List.last l2 d.
Proof.
  intros H. induction l1 as [ | x l1 IH]; [reflexivity | ].
  cbn [app List.last]. rewrite IH.
  destruct (l1 ++ l2) eqn:E; [ | reflexivity].
  apply app_eq_nil in E. tauto.
Qed.

Lemma record_fold ls : forall acc,
  fold_left (fun d l => record_line l d) ls acc = acc ++ ls.
Proof.
  induction ls as [ | l ls IH]; intros acc; simpl.
  - now rewrite app_nil_r.
  - rewrite IH. unfold record_line. now rewrite <- app_assoc.
Qed.

Section Assembly.

Context {D : Type} (feed_line : str -> D -> D).

(** The loop of the handler feeds the segments of the buffer that a
    newline ends, in order, and leaves the last segment. *)
Lemma feed_complete_split fuel : forall buf d,
  length buf <= fuel ->
  feed_complete feed_line fuel buf d =
    (List.last (split NL buf) [],
     fold_left (fun d l => feed_line l d) (removelast (split NL buf)) d).
Proof.
  induction fuel as [ | fuel IH]; intros buf d Hlen.
  - destruct buf; [reflexivity | simpl in Hlen; lia].
  - cbn [feed_complete]. destruct (contains_char NL buf) eqn:Ec.
    + destruct (contains_true_split_first buf Ec) as (line & rest & Es).
      rewrite Es. destruct (split_first_split buf line rest Es) as [E L].
      rewrite IH by lia. rewrite E.
      pose proof (split_nonempty NL rest).
      destruct (split NL rest) eqn:Er; [congruence | reflexivity].
    + rewrite (contains_false_split buf Ec). reflexivity.
Qed.

Lemma accumulate_split text buf d :
  accumulate feed_line text (buf, d) =
    (List.last (split NL (buf ++ text)) [],
     fold_left (fun d l => feed_line l d)
       (removelast (split NL (buf ++ text))
        ++ fragment (List.last (split NL (buf ++ text)) [])) d).
Proof.
  unfold accumulate. cbn [fst snd].
  rewrite feed_complete_split by lia.
  rewrite fold_left_app. unfold fragment.
  destruct (truthy (strip (List.last (split NL (buf ++ text)) []))); reflexivity.
Qed.

End Assembly.

Lemma completed_split buf text :
  completed buf text = removelast (split NL (buf ++ text))
  /\ remainder buf text = List.last (split NL (buf ++ text)) [].
Proof.
  unfold completed, remainder.
  rewrite feed_complete_split by lia. cbn [fst snd].
  now rewrite record_fold.
Qed.

Lemma accumulate_fed {D} (feed_line : str -> D -> D) text buf d :
  accumulate feed_line text (buf, d) =
    (remainder buf text,
     fold_left (fun d l => feed_line l d)
       (completed buf text ++ fragment (remainder buf text)) d).
Proof.
  destruct (completed_split buf text) as [-> ->]. apply accumulate_split.
Qed.

Lemma deliver_text_fed {D} (feed_line : str -> D -> D) texts : forall buf d,
  snd (deliver_text feed_line texts (buf, d)) =
    fold_left (fun d l => feed_line l d) (all_fed buf texts) d.
Proof.
  unfold deliver_text.
  induction texts as [ | text texts IH]; intros buf d; [reflexivity | ].
  cbn [fold_left all_fed]. rewrite accumulate_fed, IH.
  symmetry. rewrite app_assoc. apply fold_left_app.
Qed.

Lemma deliver_text_buffer {D} (feed_line : str -> D -> D) texts : forall buf d,
  fst (deliver_text feed_line texts (buf, d)) =
    fold_left remainder texts buf.
Proof.
  unfold deliver_text.
  induction texts as [ | text texts IH]; intros buf d; [reflexivity | ].
  cbn [fold_left]. now rewrite accumulate_fed, IH.
Qed.

Lemma deliver_decoded {D} (feed_line : str -> D -> D) chunks : forall w,
  deliver feed_line chunks w = deliver_text feed_line (List.map decode chunks) w.
Proof.
  unfold deliver, deliver_text, _handle_output.
  induction chunks as [ | data chunks IH]; intros w; [reflexivity | apply IH].
Qed.

(** Over the chunks, the completed lines are those of the whole text. *)
Lemma all_completed_split texts : forall buf,
  contains_char NL buf = false ->
  all_completed buf texts = removelast (split NL (buf ++ concat texts))
  /\ fold_left remainder texts buf = List.last (split NL (buf ++ concat texts)) [].
Proof.
  induction texts as [ | text texts IH]; intros buf Hbuf.
  - cbn [all_completed fold_left concat]. rewrite app_nil_r.
    rewrite (contains_false_split buf Hbuf). split; reflexivity.
  - cbn [all_completed fold_left concat].
    destruct (completed_split buf text) as [Ec Er]. rewrite Ec, Er.
    destruct (IH (List.last (split NL (buf ++ text)) [])
                (last_split_no_newline (buf ++ text))) as [IH1 IH2].
    rewrite IH1, IH2, app_assoc, (split_app (buf ++ text) (concat texts)).
    split.
    + symmetry. apply removelast_app. apply split_nonempty.
    + symmetry. apply last_of_app. apply split_nonempty.
Qed.

(** Delivered as text, in whatever pieces, a stream feeds the detector
    its lines in order: the lines fed are, chunk after chunk, the lines
    the chunk completes followed by the buffer if it is not blank; the
    completed lines of all the chunks are the segments of the whole text
    that a newline ends, empty ones included, which [feed_line] ignores;
    and the buffer left is the segment after the last newline. *)
Lemma text_chunking texts :
  snd (deliver_text record_line texts ([], [])) = all_fed [] texts
  /\ all_completed [] texts = removelast (split NL (concat texts))
  /\ fst (deliver_text record_line texts ([], []))
     = List.last (split NL (concat texts)) [].
Proof.
  rewrite deliver_text_fed, deliver_text_buffer, record_fold.
  destruct (all_completed_split texts [] eq_refl) as [H1 H2].
  auto.
Qed.

(** For chunks of bytes the same holds of the chunks decoded one by one. *)
Lemma byte_chunking chunks :
  fed_lines chunks = all_fed [] (List.map decode chunks)
  /\ all_completed [] (List.map decode chunks)
     = removelast (split NL (concat (List.map decode chunks))).
Proof.
  unfold fed_lines. rewrite deliver_decoded.
  destruct (text_chunking (List.map decode chunks)) as (H1 & H2 & _). auto.
Qed.

(** C7.  The stream [caf\xc3\xa9\n] is the line ["café"].  Delivered in
    one chunk, that line is what the detector is fed.  Delivered as
    [caf\xc3] and [\xa9\n], each chunk is decoded on its own, both halves
    of the character become U+FFFD, and the completed line fed is
    ["caf\ufffd\ufffd"], after a feed of the fragment ["caf\ufffd"]. *)
Theorem handle_output_splits_character :
  decode [x63; x61; x66; xc3; xa9; x0a] = lit "caf" ++ [233; 10]%N
  /\ removelast (split NL (decode (concat [[x63; x61; x66; xc3]; [xa9; x0a]])))
     = [lit "caf" ++ [233%N]]
  /\ fed_lines [[x63; x61; x66; xc3; xa9; x0a]] = [lit "caf" ++ [233%N]]
  /\ all_completed [] (List.map decode [[x63; x61; x66; xc3]; [xa9; x0a]])
     = [lit "caf" ++ [REPLACEMENT; REPLACEMENT]]
  /\ fed_lines [[x63; x61; x66; xc3]; [xa9; x0a]]
     = [lit "caf" ++ [REPLACEMENT]; lit "caf" ++ [REPLACEMENT; REPLACEMENT]].
Proof. repeat split; vm_compute; reflexivity. Qed.

(** * Further properties of the detector *)

Import Observed.

Lemma tl_skipn {A} (k : nat) (l : list A) : tl (skipn k l) = skipn (S k) l.
Proof.
  revert l. induction k as [ | k IH]; intros [ | x l]; try reflexivity.
  cbn [skipn]. apply IH.
Qed.

Lemma keep_last_length {A} (n : nat) (l : list A) :
  length (keep_last n l) = Nat.min n (length l).
Proof. unfold keep_last. rewrite length_skipn. lia. Qed.

Lemma deque_append_keep_last x (l : list str) :
  deque_append x (keep_last maxlen l) = keep_last maxlen (l ++ [x]).
Proof.
  unfold deque_append. rewrite keep_last_length. unfold keep_last, maxlen.
  rewrite length_app. cbn [length].
  destruct (Nat.ltb_spec (Nat.min 50 (length l)) 50) as [H | H].
  - replace (length l - 50) with 0 by lia.
    replace (length l + 1 - 50) with 0 by lia. reflexivity.
  - rewrite tl_skipn, skipn_app.
    replace (S (length l - 50)) with (length l + 1 - 50) by lia.
    replace (length l + 1 - 50 - length l) with 0 by lia. reflexivity.
Qed.

Lemma fed_app cs1 cs2 : fed (cs1 ++ cs2) = fed cs1 ++ fed cs2.
Proof.
  induction cs1 as [ | [now raw | now] cs1 IH]; simpl; [reflexivity | | assumption].
  now rewrite IH.
Qed.

Lemma stored_snoc d cs c :
  stored d (cs ++ [c]) =
    stored d cs ++
    match c with
    | Feed _ raw => if truthy (strip (strip_ansi raw)) then [ring_entry d raw] else []
    | Check _ => []
    end.
Proof.
  unfold stored. rewrite fed_app, List.filter_app, List.map_app. f_equal.
  destruct c as [now raw | now]; simpl; [ | reflexivity].
  destruct (truthy (strip (strip_ansi raw))); reflexivity.
Qed.

Section Ring.

Variable d : Detector.

Lemma run_ring cs t0 :
  output_buffer (fst (run d cs (initial_state t0))) = keep_last maxlen (stored d cs).
Proof.
  induction cs as [ | c cs IH] using rev_ind; [reflexivity | ].
  rewrite run_snoc_state, stored_snoc.
  destruct c as [now raw | now]; cbn [step].
  - rewrite feed_line_buffer, IH.
    destruct (truthy (strip (strip_ansi raw))).
    + apply deque_append_keep_last.
    + now rewrite app_nil_r.
  - rewrite check_timeout_buffer, IH. now rewrite app_nil_r.
Qed.

(** X1.  The output ring of a detector holds the entries of the last 50
    lines fed to it that were not empty once cleaned, oldest first, and so
    never more than 50 entries: after 51 such lines it holds the entries of
    lines 2 to 51. *)
Theorem ring_holds_last_fifty cs t0 :
  output_buffer (fst (run d cs (initial_state t0))) = keep_last 50 (stored d cs)
  /\ length (output_buffer (fst (run d cs (initial_state t0)))) <= 50
  /\ (length (stored d cs) = 51 ->
      output_buffer (fst (run d cs (initial_state t0))) = tl (stored d cs)).
Proof.
  rewrite run_ring. unfold maxlen. split; [reflexivity | split].
  - rewrite keep_last_length. lia.
  - intros H. unfold keep_last. rewrite H. reflexivity.
Qed.

End Ring.

(** Fifty-one lines fed to a fresh detector: the first one is gone. *)
Lemma ring_holds_last_fifty_witness :
  output_buffer
    (fst (run (Fixture.make_detector 5 0 None)
            (List.map (fun n => Feed (Z.of_nat n) (lit "line")) (seq 0 51))
            (initial_state 0)))
  = tl (stored (Fixture.make_detector 5 0 None)
          (List.map (fun n => Feed (Z.of_nat n) (lit "line")) (seq 0 51))).
Proof.
  apply (proj2 (proj2 (ring_holds_last_fifty (Fixture.make_detector 5 0 None)
                         (List.map (fun n => Feed (Z.of_nat n) (lit "line")) (seq 0 51))
                         0%Z))).
  vm_compute. reflexivity.
Defined.

Section Window.

Variable d : Detector.

Lemma run_event_time cs : forall st e,
  In e (snd (run d cs st)) -> exists c, In c cs /\ at_time e = call_time c.
Proof.
  induction cs as [ | c cs IH]; simpl; intros st e H; [destruct H | ].
  destruct (step d c st) as [st1 out1] eqn:E1.
  destruct (run d cs st1) as [st2 out2] eqn:E2.
  simpl in H. apply in_app_or in H. destruct H as [H | H].
  - apply step_outcome in E1. inversion E1 as [Hq | e0 Ht Hc Hn]; subst.
    + destruct H.
    + destruct H as [<- | []]. exists c. auto.
  - destruct (IH st1 e) as (c' & Hin & Ht); [now rewrite E2 | ].
    exists c'. auto.
Qed.

(** X2.  Calls whose clock readings all lie in a window shorter than
    [cooldown_seconds] invoke the idle callback at most once between them,
    whatever they feed and however often they check. *)
Theorem one_event_per_window cs st lo hi :
  Forall (fun c => (lo <= call_time c <= hi)%Z) cs ->
  (hi - lo < cooldown_seconds (registry d))%Z ->
  length (snd (run d cs st)) <= 1.
Proof.
  intros Hwin Hshort.
  destruct (snd (run d cs st)) as [ | e1 [ | e2 out]] eqn:E; simpl; try lia.
  exfalso.
  assert (H1 : exists c, In c cs /\ at_time e1 = call_time c).
  { apply (run_event_time cs st). rewrite E. now left. }
  assert (H2 : exists c, In c cs /\ at_time e2 = call_time c).
  { apply (run_event_time cs st). rewrite E. right. now left. }
  destruct H1 as (c1 & Hin1 & Ht1). destruct H2 as (c2 & Hin2 & Ht2).
  rewrite List.Forall_forall in Hwin.
  pose proof (Hwin c1 Hin1). pose proof (Hwin c2 Hin2).
  destruct (run d cs st) as [st' out'] eqn:Er. simpl in E. subst out'.
  apply run_spaced in Er. destruct Er as [Hs _].
  pose proof (spaced_adjacent _ [] _ e1 e2 out Hs). lia.
Qed.

End Window.

(** The prompt fed three times within a cooldown of 10. *)
Lemma one_event_per_window_witness :
  length (snd (run (Fixture.make_detector 5 10 None)
                 [Feed 100 (lit ">> "); Feed 101 (lit ">> "); Feed 102 (lit ">> ")]
                 (initial_state 90))) <= 1.
Proof.
  apply (one_event_per_window (Fixture.make_detector 5 10 None) _ _ 100%Z 102%Z).
  - repeat constructor; simpl; lia.
  - simpl. lia.
Defined.

Section Recent.

Variable d : Detector.

Lemma slice_from_keep_last {A} (n : nat) (l : list A) :
  0 < n -> slice_from (- Z.of_nat n) l = keep_last n l.
Proof. apply slice_from_neg. Qed.

Lemma keep_last_snoc {A} (n : nat) (l : list A) x :
  0 < n -> exists older, keep_last n (l ++ [x]) = older ++ [x].
Proof.
  intros H. unfold keep_last. rewrite length_app. cbn [length].
  rewrite skipn_app.
  replace (length l + 1 - n - length l) with 0 by lia.
  eexists. reflexivity.
Qed.

(** X3.  The recent lines handed to the idle callback are the last ten
    entries of the ring at the moment of the call, fewer when the ring
    holds fewer; when the call comes from [feed_line], the last of them
    is the entry of the line just fed. *)
Theorem recent_lines_of_event :
  (forall now raw st e,
      In e (snd (feed_line d now raw st)) ->
      recent e = keep_last 10 (output_buffer (fst (feed_line d now raw st)))
      /\ length (recent e) <= 10
      /\ exists older, recent e = older ++ [ring_entry d raw])
  /\ (forall now st e,
        In e (snd (check_timeout d now st)) ->
        recent e = keep_last 10 (output_buffer st)
        /\ length (recent e) <= 10).
Proof.
  split.
  - intros now raw st e H.
    assert (Hb := feed_line_buffer d now raw st).
    unfold feed_line in H. unfold ring_entry in *.
    destruct (truthy (strip (strip_ansi raw))); simpl in H; [ | destruct H].
    destruct (matched_tool d (strip (strip_ansi raw))) as [tool | ]; [ | destruct H].
    unfold _trigger_idle in H. simpl in H. destruct (_ <? _)%Z; [destruct H | ].
    destruct H as [<- | []]. cbn [recent]. rewrite Hb.
    change (-10)%Z with (- Z.of_nat 10)%Z. rewrite slice_from_keep_last by lia.
    split; [reflexivity | split].
    + rewrite keep_last_length. lia.
    + destruct (deque_append_last (_redact d (strip (strip_ansi raw)))
                  (output_buffer st)) as [older ->].
      apply keep_last_snoc. lia.
  - intros now st e H.
    assert (Hne : snd (check_timeout d now st) <> [])
      by (intros E; rewrite E in H; inversion H).
    apply check_timeout_fires in Hne. destruct Hne as (Ht & Hi & Hc).
    rewrite check_timeout_due, trigger_fires in H by assumption.
    destruct H as [<- | []]. cbn [recent].
    change (-10)%Z with (- Z.of_nat 10)%Z. rewrite slice_from_keep_last by lia.
    split; [reflexivity | ]. rewrite keep_last_length. lia.
Qed.

End Recent.

(** The call made for the prompt after two lines of output. *)
Lemma recent_lines_of_event_witness :
  exists e,
    snd (feed_line (Fixture.make_detector 5 0 None) 103 (lit ">> ")
           (fst (run (Fixture.make_detector 5 0 None)
                   [Feed 100 (lit "Some normal output");
                    Feed 101 (lit "More output here")] (initial_state 90)))) = [e]
    /\ length (recent e) <= 10.
Proof.
  eexists. split; [vm_compute; reflexivity | ].
  apply (proj1 (recent_lines_of_event (Fixture.make_detector 5 0 None))
           103%Z (lit ">> ")
           (fst (run (Fixture.make_detector 5 0 None)
                   [Feed 100 (lit "Some normal output");
                    Feed 101 (lit "More output here")] (initial_state 90)))).
  vm_compute. left. reflexivity.
Defined.

Lemma blank_no_escape text : blank text -> no_escape text.
Proof.
  unfold blank, no_escape. intros H. eapply List.Forall_impl; [ | exact H].
  intros c Hc ->. vm_compute in Hc. discriminate.
Qed.

Lemma blank_lstrip text : blank text -> lstrip text = [].
Proof.
  induction 1 as [ | c text Hc _ IH]; [reflexivity | ].
  cbn [lstrip]. now rewrite Hc.
Qed.

(** X4.  A line made of white space only, the empty line included, is
    ignored by [feed_line]: the state is left as it is, nothing enters the
    ring, the time of the last output does not move and the callback is
    not invoked. *)
Theorem blank_line_ignored (d : Detector) now raw st :
  blank raw -> feed_line d now raw st = (st, []).
Proof.
  intros H. unfold feed_line.
  rewrite (strip_ansi_no_escape raw (blank_no_escape raw H)).
  unfold strip. rewrite (blank_lstrip raw H). reflexivity.
Qed.

(** A line of three spaces. *)
Lemma blank_line_ignored_witness :
  feed_line (Fixture.make_detector 5 0 None) 100 (lit "   ") (initial_state 0)
  = (initial_state 0, []).
Proof.
  apply blank_line_ignored. repeat constructor.
Defined.

Lemma sub_go_sublist r t : forall i skip,
  sublist (Re.sub_go r [] i t skip) t.
Proof.
  induction t as [ | c t IH]; intros i skip.
  - destruct skip; cbn [Re.sub_go]; [ | constructor].
    destruct (Re.match_at r i [] false) as [e | ]; [ | constructor].
    destruct (e =? i); cbn [app]; [ | constructor].
    destruct (Re.match_at r i [] true); constructor.
  - destruct skip as [ | k]; cbn [Re.sub_go].
    + destruct (Re.match_at r i (c :: t) false) as [e | ].
      * destruct (e =? i); cbn [app].
        -- destruct (Re.match_at r i (c :: t) true) as [e' | ]; cbn [app].
           ++ apply sublist_cons, IH.
           ++ apply sublist_skip, IH.
        -- apply sublist_cons, IH.
      * apply sublist_skip, IH.
    + apply sublist_cons, IH.
Qed.

(** X5.  [strip_ansi] only deletes: what it returns is the text with some
    characters left out, in the same order, so never longer than the text;
    and a text without an ESC character comes back unchanged. *)
Theorem strip_ansi_only_deletes text :
  sublist (strip_ansi text) text
  /\ length (strip_ansi text) <= length text
  /\ (no_escape text -> strip_ansi text = text).
Proof.
  assert (H : sublist (strip_ansi text) text) by apply sub_go_sublist.
  split; [exact H | split].
  - now apply sublist_length.
  - apply strip_ansi_no_escape.
Qed.

(** A plain text. *)
Lemma strip_ansi_only_deletes_witness :
  strip_ansi (lit "hello world") = lit "hello world".
Proof.
  apply (proj2 (proj2 (strip_ansi_only_deletes (lit "hello world")))).
  repeat constructor; discriminate.
Defined.

Lemma sub_not_empty r repl line :
  repl <> [] -> line <> [] -> Re.sub r repl line <> [].
Proof.
  intros Hr Hl. destruct line as [ | c t]; [congruence | ].
  unfold Re.sub. cbn [Re.sub_go].
  destruct (Re.match_at r 0 (c :: t) false) as [e | ]; [ | discriminate].
  destruct repl; [congruence | ].
  destruct (e =? 0); discriminate.
Qed.

Lemma redact_not_empty d line : line <> [] -> _redact d line <> [].
Proof.
  unfold _redact. revert line.
  induction (_redact_patterns d) as [ | pat pats IH]; intros line H; [exact H | ].
  cbn [fold_left]. apply IH. apply sub_not_empty; [discriminate | exact H].
Qed.

(** X6.  No entry of the output ring is empty: a line reaches the ring
    only if something is left of it after stripping and trimming, and
    redaction replaces text by the marker but never removes it. *)
Theorem ring_entries_not_empty (d : Detector) cs t0 entry :
  In entry (output_buffer (fst (run d cs (initial_state t0)))) -> entry <> [].
Proof.
  intros H. apply run_buffer in H. destruct H as [[] | (raw & _ & Ht & ->)].
  apply redact_not_empty. intros E. rewrite E in Ht. discriminate.
Qed.

(** The entry of a line that is redacted whole. *)
Lemma ring_entries_not_empty_witness :
  In (lit "[REDACTED]")
    (output_buffer (fst (run Fixture.detector_redacting_keys
                           [Feed 100 (lit "ABC123")] (initial_state 0))))
  /\ lit "[REDACTED]" <> [].
Proof.
  assert (H : In (lit "[REDACTED]")
                (output_buffer (fst (run Fixture.detector_redacting_keys
                                       [Feed 100 (lit "ABC123")] (initial_state 0)))))
    by (vm_compute; left; reflexivity).
  split; [exact H | ].
  exact (ring_entries_not_empty Fixture.detector_redacting_keys
           [Feed 100 (lit "ABC123")] 0%Z (lit "[REDACTED]") H).
Defined.

Section Tracking.

Variable d : Detector.

Lemma trigger_track m k now st :
  detected_tool (fst (_trigger_idle d m k now st))
  = last_tool (snd (_trigger_idle d m k now st)) (detected_tool st)
  /\ last_output_time (fst (_trigger_idle d m k now st)) = last_output_time st.
Proof. unfold _trigger_idle. destruct (_ <? _)%Z; split; reflexivity. Qed.

Lemma step_track c st :
  detected_tool (fst (step d c st))
  = last_tool (snd (step d c st)) (detected_tool st)
  /\ last_output_time (fst (step d c st))
     = if is_output c then call_time c else last_output_time st.
Proof.
  destruct c as [now raw | now]; cbn [step is_output call_time].
  - unfold feed_line.
    destruct (truthy (strip (strip_ansi raw))); cbn [negb]; [ | split; reflexivity].
    destruct (matched_tool d (strip (strip_ansi raw))) as [tool | ];
      [ | split; reflexivity].
    match goal with
    | |- context [_trigger_idle d ?m ?k ?t ?s] =>
        destruct (trigger_track m k t s) as [H1 H2]; rewrite H1, H2
    end.
    split; reflexivity.
  - unfold check_timeout. destruct (_ && _); [ | split; reflexivity].
    apply trigger_track.
Qed.

Lemma run_track cs : forall st,
  detected_tool (fst (run d cs st))
  = last_tool (snd (run d cs st)) (detected_tool st)
  /\ last_output_time (fst (run d cs st)) = last_output cs (last_output_time st).
Proof.
  induction cs as [ | c cs IH]; intros st; [split; reflexivity | ].
  cbn [run]. destruct (step_track c st) as [Hd Ht].
  destruct (step d c st) as [st1 out1]. cbn [fst snd] in *.
  destruct (IH st1) as [IHd IHt].
  destruct (run d cs st1) as [st2 out2]. cbn [fst snd] in *.
  unfold last_tool, last_output in *. cbn [fold_left].
  rewrite fold_left_app. split; congruence.
Qed.

Lemma last_output_bound cs : forall t T,
  Forall (fun c => (T <= call_time c)%Z) cs -> (T <= t)%Z ->
  (T <= last_output cs t)%Z.
Proof.
  unfold last_output.
  induction cs as [ | c cs IH]; intros t T H Ht; [exact Ht | ].
  inversion H; subst. cbn [fold_left]. apply IH; [assumption | ].
  destruct (is_output c); assumption.
Qed.

(** X7.  After any sequence of calls, [detected_tool] is the tool key of
    the last invocation of the callback, unchanged when there was none,
    and [last_output_time] is the clock reading of the last call that fed
    a non-empty line, unchanged when there was none; so it does not go
    back as long as no call reads the clock before it. *)
Theorem detector_tracks_last cs st :
  detected_tool (fst (run d cs st))
  = last_tool (snd (run d cs st)) (detected_tool st)
  /\ last_output_time (fst (run d cs st)) = last_output cs (last_output_time st)
  /\ (Forall (fun c => (last_output_time st <= call_time c)%Z) cs ->
      (last_output_time st <= last_output_time (fst (run d cs st)))%Z).
Proof.
  destruct (run_track cs st) as [Hd Ht].
  split; [exact Hd | split; [exact Ht | ]].
  intros H. rewrite Ht. apply last_output_bound; [assumption | lia].
Qed.

Lemma keep_last_keep_last {A} (n k : nat) (l : list A) :
  n <= k -> keep_last n (keep_last k l) = keep_last n l.
Proof.
  intros H. unfold keep_last. rewrite length_skipn, skipn_skipn.
  f_equal. lia.
Qed.

(** X8.  After any sequence of calls on a fresh detector,
    [get_recent_output(n)] with [n] from 1 to 50 returns the entries of
    the last [n] non-empty lines fed, oldest first, and never more than
    [n] of them. *)
Theorem recent_output_after_run cs t0 (n : nat) :
  1 <= n <= 50 ->
  get_recent_output (Z.of_nat n) (fst (run d cs (initial_state t0)))
  = keep_last n (stored d cs)
  /\ length (get_recent_output (Z.of_nat n) (fst (run d cs (initial_state t0)))) <= n.
Proof.
  intros H. unfold get_recent_output.
  rewrite slice_from_keep_last by lia. rewrite run_ring. unfold maxlen.
  rewrite keep_last_keep_last by lia.
  split; [reflexivity | ]. rewrite keep_last_length. lia.
Qed.

End Tracking.

(** A run whose clock does not go back. *)
Lemma detector_tracks_last_witness :
  (90 <= last_output_time
           (fst (run (Fixture.make_detector 5 0 None)
                   [Feed 100 (lit "Some normal output"); Check 101; Feed 103 (lit ">> ")]
                   (initial_state 90))))%Z.
Proof.
  apply (proj2 (proj2 (detector_tracks_last (Fixture.make_detector 5 0 None)
                         [Feed 100 (lit "Some normal output"); Check 101;
                          Feed 103 (lit ">> ")] (initial_state 90)))).
  repeat constructor; simpl; lia.
Defined.

(** The default of three lines, after four were fed. *)
Lemma recent_output_after_run_witness :
  get_recent_output (Z.of_nat 3)
    (fst (run (Fixture.make_detector 5 0 None)
            [Feed 100 (lit "Line 1"); Feed 101 (lit "Line 2");
             Feed 102 (lit "Line 3"); Feed 103 (lit "Line 4")] (initial_state 90)))
  = keep_last 3 (stored (Fixture.make_detector 5 0 None)
                   [Feed 100 (lit "Line 1"); Feed 101 (lit "Line 2");
                    Feed 102 (lit "Line 3"); Feed 103 (lit "Line 4")]).
Proof.
  apply (proj1 (recent_output_after_run (Fixture.make_detector 5 0 None)
                  [Feed 100 (lit "Line 1"); Feed 101 (lit "Line 2");
                   Feed 102 (lit "Line 3"); Feed 103 (lit "Line 4")] 90%Z 3
                  ltac:(lia))).
Defined.

(** * Further properties of the hub *)

Import Manager.

Lemma remove_first_absent x l :
  Forall (fun y => x <> y) l -> remove_first x l = l.
Proof.
  induction 1 as [ | y l Hy _ IH]; [reflexivity | ].
  cbn [remove_first]. destruct (Nat.eqb_spec x y); [contradiction | ].
  now rewrite IH.
Qed.

Lemma remove_first_middle x pre post :
  Forall (fun y => x <> y) pre ->
  remove_first x (pre ++ x :: post) = pre ++ post.
Proof.
  induction 1 as [ | y l Hy _ IH]; cbn [app remove_first].
  - now rewrite Nat.eqb_refl.
  - destruct (Nat.eqb_spec x y); [contradiction | ]. now rewrite IH.
Qed.

Lemma prune_fold send_ok l : forall pre,
  Forall (fun y => send_ok y = true) pre ->
  fold_left (fun l ws => remove_first ws l)
    (List.filter (fun ws => negb (send_ok ws)) l) (pre ++ l)
  = pre ++ List.filter send_ok l.
Proof.
  induction l as [ | x l IH]; intros pre Hpre; [reflexivity | ].
  cbn [List.filter]. destruct (send_ok x) eqn:Ex; cbn [negb fold_left].
  - change (pre ++ x :: l) with (pre ++ [x] ++ l). rewrite app_assoc.
    rewrite IH by (apply Forall_app; split; [assumption | now constructor]).
    now rewrite <- app_assoc.
  - rewrite remove_first_middle.
    + now apply IH.
    + eapply List.Forall_impl; [ | exact Hpre].
      intros y Hy ->. congruence.
Qed.

Lemma prune_filter send_ok conns : prune send_ok conns = List.filter send_ok conns.
Proof.
  destruct conns as [ | x l]; [reflexivity | ].
  unfold prune. apply (prune_fold send_ok (x :: l) []). constructor.
Qed.

Lemma broadcast_prune server_time send_ok data conns :
  fst (broadcast server_time send_ok data conns) = prune send_ok conns.
Proof. unfold broadcast, prune. now destruct conns. Qed.

(** X9.  A broadcast keeps exactly the connections that accepted the
    message, in their order, and drops every one whose send failed, so a
    failing subscriber does not cost the others their place; the message
    gets its [server_time] only when there is a connection. *)
Theorem broadcast_keeps_accepting server_time send_ok data conns :
  fst (broadcast server_time send_ok data conns) = List.filter send_ok conns
  /\ Forall (fun ws => send_ok ws = true)
       (fst (broadcast server_time send_ok data conns))
  /\ (forall ws, In ws conns -> send_ok ws = true ->
                 In ws (fst (broadcast server_time send_ok data conns)))
  /\ (ev_server_time (snd (broadcast server_time send_ok data conns))
      = match conns with [] => ev_server_time data | _ => Some server_time end).
Proof.
  rewrite broadcast_prune, prune_filter. split; [reflexivity | split; [ | split]].
  - apply List.Forall_forall. intros ws H. apply List.filter_In in H. tauto.
  - intros ws Hin Hok. apply List.filter_In. auto.
  - unfold broadcast. now destruct conns.
Qed.

(** Three subscribers, the second of which fails. *)
Lemma broadcast_keeps_accepting_witness :
  In 3 (fst (broadcast (lit "t") (fun ws => negb (Nat.eqb ws 2))
               {| ev_type := lit "idle_detected"; ev_session_id := lit "s";
                  ev_tool_name := lit "tool"; ev_working_dir := [];
                  ev_last_output := []; ev_idle_seconds := 0;
                  ev_detection_method := lit "pattern"; ev_timestamp := lit "t";
                  ev_server_time := None |} [1; 2; 3])).
Proof.
  apply (proj1 (proj2 (proj2 (broadcast_keeps_accepting _ _ _ _)))).
  - right. right. left. reflexivity.
  - reflexivity.
Defined.

(** X10.  The [clients_notified] of the answer to [POST /api/events] is the
    number of connections that accepted the broadcast, and these are the
    connections the hub keeps. *)
Theorem clients_notified_counts_accepting event timestamp server_time send_ok h :
  clients_notified (snd (receive_event event timestamp server_time send_ok h))
  = length (List.filter send_ok (active_connections h))
  /\ active_connections (fst (receive_event event timestamp server_time send_ok h))
     = List.filter send_ok (active_connections h).
Proof.
  unfold receive_event.
  match goal with
  | |- context [broadcast server_time send_ok ?data ?conns] =>
      pose proof (broadcast_prune server_time send_ok data conns) as Hb;
      destruct (broadcast server_time send_ok data conns) as [conns' e]
  end.
  cbn [fst snd clients_notified client_count active_connections] in *.
  rewrite Hb, prune_filter. split; reflexivity.
Qed.

Lemma existsb_absent ws l :
  Forall (fun y => ws <> y) l -> existsb (Nat.eqb ws) l = false.
Proof.
  induction 1 as [ | y l Hy _ IH]; [reflexivity | ].
  cbn [existsb]. destruct (Nat.eqb_spec ws y); [contradiction | exact IH].
Qed.

Lemma existsb_present ws l : In ws l -> existsb (Nat.eqb ws) l = true.
Proof.
  intros H. apply existsb_exists. exists ws. split; [exact H | apply Nat.eqb_refl].
Qed.

Lemma remove_first_length ws l :
  In ws l -> S (length (remove_first ws l)) = length l.
Proof.
  induction l as [ | y l IH]; intros H; [destruct H | ].
  cbn [remove_first]. destruct (Nat.eqb_spec ws y) as [-> | Hne]; [reflexivity | ].
  destruct H as [-> | H]; [congruence | ].
  cbn [length]. now rewrite IH.
Qed.

(** X11.  Disconnecting a subscriber that is not connected changes
    nothing; disconnecting right after connecting gives back the list of
    connections there was, when the subscriber was not yet in it; and in
    any case a disconnect takes away at most one entry and never touches
    sessions or history. *)
Theorem connect_then_disconnect ws h :
  (Forall (fun y => ws <> y) (active_connections h) ->
   disconnect ws h = h /\ disconnect ws (connect ws h) = h)
  /\ (In ws (active_connections h) ->
      S (client_count (disconnect ws h)) = client_count h)
  /\ client_count (connect ws h) = S (client_count h)
  /\ sessions (disconnect ws h) = sessions h
  /\ event_history (disconnect ws h) = event_history h.
Proof.
  split; [ | split; [ | split; [ | split; reflexivity]]].
  - intros H. destruct h as [ss hist conns]. unfold disconnect, connect.
    cbn [sessions event_history active_connections] in *. split.
    + now rewrite (existsb_absent ws conns H).
    + replace (existsb (Nat.eqb ws) (conns ++ [ws])) with true.
      * rewrite (remove_first_middle ws conns [] H). now rewrite app_nil_r.
      * symmetry. rewrite existsb_app. cbn [existsb].
        rewrite Nat.eqb_refl. now rewrite orb_true_r.
  - intros H. unfold disconnect, client_count. cbn [active_connections].
    rewrite (existsb_present ws _ H). now apply remove_first_length.
  - unfold connect, client_count. cbn [active_connections].
    rewrite length_app. cbn [length]. lia.
Qed.

(** A second and a first subscriber. *)
Lemma connect_then_disconnect_witness :
  disconnect 2 (connect 2 (connect 1 initial)) = connect 1 initial.
Proof.
  apply (proj1 (connect_then_disconnect 2 (connect 1 initial))).
  repeat constructor. discriminate.
Defined.

(** X12.  Registering a session stores its record, active and with its
    command; unregistering it takes the record away again and leaves the
    others alone, so that a session that was not known before leaves no
    trace; unregistering an unknown session changes no record; and the
    session count of the health answer grows by one for a new session and
    not at all for a known one. *)
Theorem register_then_unregister req registered_at send_ok send_ok' h :
  sessions (fst (register_session req registered_at send_ok h)) !! req_session_id req
  = Some {| s_session_id := req_session_id req;
            s_tool_name := req_tool_name req;
            s_working_dir := req_working_dir req;
            s_status := lit "active";
            s_command := Some (req_command req);
            s_registered_at := Some registered_at;
            s_last_event := None |}
  /\ sessions (fst (unregister_session (req_session_id req) send_ok'
                     (fst (register_session req registered_at send_ok h))))
       !! req_session_id req = None
  /\ (forall k, k <> req_session_id req ->
        sessions (fst (unregister_session (req_session_id req) send_ok'
                         (fst (register_session req registered_at send_ok h)))) !! k
        = sessions h !! k)
  /\ (sessions h !! req_session_id req = None ->
      sessions (fst (unregister_session (req_session_id req) send_ok'
                       (fst (register_session req registered_at send_ok h))))
      = sessions h
      /\ sessions (fst (unregister_session (req_session_id req) send_ok' h))
         = sessions h
      /\ health_sessions (health (fst (register_session req registered_at send_ok h)))
         = S (health_sessions (health h)))
  /\ (is_Some (sessions h !! req_session_id req) ->
      health_sessions (health (fst (register_session req registered_at send_ok h)))
      = health_sessions (health h)).
Proof.
  unfold register_session, unregister_session, health.
  cbn [fst sessions health_sessions].
  rewrite lookup_insert_eq.
  split; [reflexivity | split; [ | split; [ | split]]].
  - apply lookup_delete_eq.
  - intros k Hk. rewrite lookup_delete_ne by congruence.
    apply lookup_insert_ne. congruence.
  - intros Hnone. rewrite Hnone. split; [ | split].
    + now apply delete_insert_id.
    + reflexivity.
    + now apply map_size_insert_None.
  - intros Hsome. now apply map_size_insert_Some.
Qed.

(** A session registered with a fresh hub and unregistered again. *)
Lemma register_then_unregister_witness :
  sessions (fst (unregister_session (lit "ab12cd34") (fun _ => true)
                   (fst (register_session
                           {| req_session_id := lit "ab12cd34";
                              req_tool_name := lit "Claude Code";
                              req_command := [lit "claude"];
                              req_working_dir := lit "/tmp" |}
                           (lit "2026-01-01T00:00:00+00:00") (fun _ => true) initial))))
  = sessions initial.
Proof.
  apply (proj1 (proj2 (proj2 (proj2
           (register_then_unregister
              {| req_session_id := lit "ab12cd34";
                 req_tool_name := lit "Claude Code";
                 req_command := [lit "claude"];
                 req_working_dir := lit "/tmp" |}
              (lit "2026-01-01T00:00:00+00:00") (fun _ => true) (fun _ => true)
              initial))))).
  reflexivity.
Defined.

(** X13.  The session record is replaced whole by each writer: an idle
    event for a registered session leaves a record that is idle and holds
    the event but has lost the command and the registration time, and a
    registration after an event leaves an active record without the
    event. *)
Theorem event_replaces_registration req registered_at event timestamp server_time
    send_ok send_ok' h :
  session_id event = req_session_id req ->
  (exists r,
      sessions (fst (receive_event event timestamp server_time send_ok'
                       (fst (register_session req registered_at send_ok h))))
        !! req_session_id req = Some r
      /\ s_status r = lit "idle"
      /\ s_command r = None
      /\ s_registered_at r = None
      /\ exists e, s_last_event r = Some e /\ request_of e = (event, timestamp))
  /\ (exists r,
        sessions (fst (register_session req registered_at send_ok
                         (fst (receive_event event timestamp server_time send_ok' h))))
          !! req_session_id req = Some r
        /\ s_status r = lit "active"
        /\ s_command r = Some (req_command req)
        /\ s_last_event r = None).
Proof.
  intros Hid. split.
  - destruct (receive_event_effect event timestamp server_time send_ok'
                (fst (register_session req registered_at send_ok h)))
      as (e & _ & H2 & H3 & H4 & H5 & H6 & H7 & H8 & _ & Hl & _).
    rewrite Hid in Hl. eexists. split; [exact Hl | ].
    cbn [s_status s_command s_registered_at s_last_event].
    repeat split. exists e. split; [reflexivity | ].
    unfold request_of. rewrite H2, H3, H4, H5, H6, H7, H8.
    now destruct event.
  - unfold register_session. cbn [fst sessions].
    rewrite lookup_insert_eq. eexists. split; [reflexivity | ].
    repeat split.
Qed.

(** An event for the session registered above. *)
Lemma event_replaces_registration_witness :
  exists r,
    sessions (fst (receive_event
                     {| session_id := lit "ab12cd34"; tool_name := lit "Claude Code";
                        working_dir := lit "/tmp"; Hub.last_output := lit ">>";
                        idle_seconds := 0; detection_method := lit "pattern" |}
                     (lit "t1") (lit "t2") (fun _ => true)
                     (fst (register_session
                             {| req_session_id := lit "ab12cd34";
                                req_tool_name := lit "Claude Code";
                                req_command := [lit "claude"];
                                req_working_dir := lit "/tmp" |}
                             (lit "t0") (fun _ => true) initial))))
      !! lit "ab12cd34" = Some r
    /\ s_status r = lit "idle" /\ s_command r = None.
Proof.
  destruct (proj1 (event_replaces_registration
              {| req_session_id := lit "ab12cd34";
                 req_tool_name := lit "Claude Code";
                 req_command := [lit "claude"];
                 req_working_dir := lit "/tmp" |}
              (lit "t0")
              {| session_id := lit "ab12cd34"; tool_name := lit "Claude Code";
                 working_dir := lit "/tmp"; Hub.last_output := lit ">>";
                 idle_seconds := 0; detection_method := lit "pattern" |}
              (lit "t1") (lit "t2") (fun _ => true) (fun _ => true) initial eq_refl))
    as (r & Hr & Hs & Hc & _).
  exists r. auto.
Defined.

Lemma keep_last_min {A} (n k : nat) (l : list A) :
  keep_last n (keep_last k l) = keep_last (Nat.min n k) l.
Proof.
  unfold keep_last. rewrite length_skipn, skipn_skipn. f_equal. lia.
Qed.

Lemma keep_last_map {A B} (f : A -> B) n (l : list A) :
  List.map f (keep_last n l) = keep_last n (List.map f l).
Proof. unfold keep_last. now rewrite List.skipn_map, List.length_map. Qed.

Lemma append_bounded {A} (n : nat) (l : list A) x :
  0 < n ->
  (if length (keep_last n l) <? n then keep_last n l else tl (keep_last n l)) ++ [x]
  = keep_last n (l ++ [x]).
Proof.
  intros Hn. rewrite keep_last_length. unfold keep_last.
  rewrite length_app. cbn [length].
  destruct (Nat.ltb_spec (Nat.min n (length l)) n) as [H | H].
  - replace (length l - n) with 0 by lia.
    replace (length l + 1 - n) with 0 by lia. reflexivity.
  - rewrite tl_skipn, skipn_app.
    replace (S (length l - n)) with (length l + 1 - n) by lia.
    replace (length l + 1 - n - length l) with 0 by lia. reflexivity.
Qed.

Lemma posts_snoc ps p h : posts (ps ++ [p]) h = post p (posts ps h).
Proof. unfold posts. now rewrite fold_left_app. Qed.

Lemma post_history p h :
  exists e, request_of e = posted p
            /\ event_history (post p h)
               = (if length (event_history h) <? MAX_HISTORY
                  then event_history h else tl (event_history h)) ++ [e].
Proof.
  unfold post.
  destruct (receive_event_effect (post_event p) (post_timestamp p)
              (post_server_time p) (post_send_ok p) h)
    as (e & _ & H2 & H3 & H4 & H5 & H6 & H7 & H8 & Hh & _).
  exists e. split; [ | exact Hh].
  unfold request_of, posted. rewrite H2, H3, H4, H5, H6, H7, H8.
  now destruct (post_event p).
Qed.

(** The history of the hub is what is left of the posts: the last 100,
    in the order they arrived. *)
Lemma history_of_posts ps :
  List.map request_of (event_history (posts ps initial))
  = keep_last MAX_HISTORY (List.map posted ps).
Proof.
  induction ps as [ | p ps IH] using rev_ind; [reflexivity | ].
  rewrite posts_snoc, List.map_app. cbn [List.map].
  destruct (post_history p (posts ps initial)) as (e & He & Hh).
  rewrite Hh, List.map_app. cbn [List.map]. rewrite He.
  rewrite <- append_bounded by (unfold MAX_HISTORY; lia).
  rewrite <- IH, List.length_map. f_equal.
  destruct (length (event_history (posts ps initial)) <? MAX_HISTORY);
    [reflexivity | ].
  now destruct (event_history (posts ps initial)).
Qed.

(** X14.  What is posted is what is read back: after any sequence of
    [POST /api/events] on a fresh hub, [GET /api/events?limit=N] with
    [N >= 1] returns the last [N] events posted, at most the last 100, in
    the order they arrived and with the fields and time stamp they were
    posted with; the event just posted is the last one returned. *)
Theorem events_read_back ps (limit : Z) :
  (1 <= limit)%Z ->
  List.map request_of (list_events limit (posts ps initial))
  = keep_last (Nat.min (Z.to_nat limit) 100) (List.map posted ps)
  /\ (forall p ps', ps = ps' ++ [p] ->
        exists older e,
          list_events limit (posts ps initial) = older ++ [e]
          /\ request_of e = posted p).
Proof.
  intros H.
  assert (E : List.map request_of (list_events limit (posts ps initial))
              = keep_last (Nat.min (Z.to_nat limit) 100) (List.map posted ps)).
  { rewrite list_events_positive by lia.
    change (@last_n EventRecord) with (@keep_last EventRecord).
    rewrite keep_last_map, history_of_posts. apply keep_last_min. }
  split; [exact E | ].
  intros p ps' ->. rewrite List.map_app in E. cbn [List.map] in E.
  destruct (keep_last_snoc (Nat.min (Z.to_nat limit) 100)
              (List.map posted ps') (posted p)) as [older' Ho]; [lia | ].
  rewrite Ho in E.
  destruct (list_events limit (posts (ps' ++ [p]) initial)) as [ | x l] eqn:El
    using rev_ind.
  - destruct older'; discriminate.
  - exists l, x. split; [reflexivity | ].
    rewrite List.map_app in E. cbn [List.map] in E.
    apply app_inj_tail in E. tauto.
Qed.

(** Two posts read back with a limit of one. *)
Lemma events_read_back_witness :
  List.map request_of
    (list_events 1
       (posts [ {| post_event := {| session_id := lit "a"; tool_name := lit "Codex";
                                    working_dir := []; Hub.last_output := [];
                                    idle_seconds := 0;
                                    detection_method := lit "pattern" |};
                   post_timestamp := lit "t1"; post_server_time := lit "t1";
                   post_send_ok := fun _ => true |};
                {| post_event := {| session_id := lit "b"; tool_name := lit "Codex";
                                    working_dir := []; Hub.last_output := [];
                                    idle_seconds := 30;
                                    detection_method := lit "timeout" |};
                   post_timestamp := lit "t2"; post_server_time := lit "t2";
                   post_send_ok := fun _ => true |} ] initial))
  = keep_last (Nat.min (Z.to_nat 1) 100)
      (List.map posted
         [ {| post_event := {| session_id := lit "a"; tool_name := lit "Codex";
                               working_dir := []; Hub.last_output := [];
                               idle_seconds := 0;
                               detection_method := lit "pattern" |};
              post_timestamp := lit "t1"; post_server_time := lit "t1";
              post_send_ok := fun _ => true |};
           {| post_event := {| session_id := lit "b"; tool_name := lit "Codex";
                               working_dir := []; Hub.last_output := [];
                               idle_seconds := 30;
                               detection_method := lit "timeout" |};
              post_timestamp := lit "t2"; post_server_time := lit "t2";
              post_send_ok := fun _ => true |} ]).
Proof.
  apply (proj1 (events_read_back _ 1%Z ltac:(lia))).
Defined.

(** * Further properties of the notifier *)

Import Osascript.

Lemma read_escape c rest :
  read_literal (escape c ++ rest)
  = match read_literal rest with
    | Some (text, after) => Some (visible [c] ++ text, after)
    | None => None
    end.
Proof.
  unfold escape, visible, BACKSLASH, QUOTE, RETURN_SYMBOL. cbn [flat_map].
  rewrite app_nil_r.
  destruct (N.eqb_spec c 92) as [-> | H1].
  { cbn [app read_literal]. unfold QUOTE, BACKSLASH.
    change (N.eqb 92 34) with false. change (N.eqb 92 92) with true.
    change (N.eqb 92 10) with false. cbv iota.
    destruct (read_literal rest) as [[text after] | ]; reflexivity. }
  destruct (N.eqb_spec c 34) as [-> | H2].
  { cbn [app read_literal]. unfold QUOTE, BACKSLASH.
    change (N.eqb 92 34) with false. change (N.eqb 92 92) with true.
    change (N.eqb 34 10) with false. cbv iota.
    destruct (read_literal rest) as [[text after] | ]; reflexivity. }
  destruct (N.eqb_spec c 10) as [-> | H3].
  { cbn [app read_literal]. unfold QUOTE, BACKSLASH.
    change (N.eqb 32 34) with false. change (N.eqb 32 92) with false.
    change (N.eqb 9166 34) with false. change (N.eqb 9166 92) with false.
    cbv iota.
    destruct (read_literal rest) as [[text after] | ]; reflexivity. }
  cbn [app read_literal]. unfold QUOTE, BACKSLASH.
  replace (N.eqb c 34) with false by (symmetry; now apply N.eqb_neq).
  replace (N.eqb c 92) with false by (symmetry; now apply N.eqb_neq).
  destruct (read_literal rest) as [[text after] | ]; reflexivity.
Qed.

Lemma read_sanitized text rest :
  read_literal (_sanitize text ++ QUOTE :: rest) = Some (visible text, rest).
Proof.
  rewrite sanitize_flat_map.
  induction text as [ | c text IH].
  - cbn [flat_map app read_literal]. now rewrite N.eqb_refl.
  - cbn [flat_map]. rewrite <- app_assoc, read_escape, IH.
    unfold visible. cbn [flat_map]. now rewrite app_nil_r.
Qed.

(** X15.  A sanitized text, put between double quotes, reads back as one
    string literal that ends at the closing quote, whatever the text and
    whatever follows; what is read is the text with each newline replaced
    by the return symbol between two spaces, and the sanitized text has no
    newline in it. *)
Theorem sanitized_reads_back text rest :
  read_literal (_sanitize text ++ QUOTE :: rest) = Some (visible text, rest)
  /\ ~ In 10%N (_sanitize text).
Proof.
  split; [apply read_sanitized | ].
  rewrite sanitize_flat_map. intros H. apply in_flat_map in H.
  destruct H as (c & _ & Hc). unfold escape, BACKSLASH, QUOTE, RETURN_SYMBOL in Hc.
  destruct (N.eqb c 92); [ | destruct (N.eqb c 34); [ | destruct (N.eqb_spec c 10)]];
    cbn [In] in Hc; intuition (try discriminate; congruence).
Qed.




(** * Further properties of the registry and of the watcher *)

Import Loading.

Lemma first_hinted_some lower_cmd registry table k :
  first_hinted table lower_cmd registry = Some k ->
  has_key k (tools registry) = true
  /\ exists hints hint,
       In (k, hints) table /\ In hint hints /\ contains hint lower_cmd = true.
Proof.
  induction table as [ | [tool_key hints] table IH]; cbn [first_hinted];
    [discriminate | ].
  destruct (has_key tool_key (tools registry)) eqn:Ek; cbn [andb].
  - destruct (existsb (fun hint => contains hint lower_cmd) hints) eqn:Eh.
    + intros H. inversion H; subst. split; [exact Ek | ].
      apply existsb_exists in Eh. destruct Eh as (hint & Hin & Hc).
      exists hints, hint. repeat split; auto. now left.
    + intros H. destruct (IH H) as (H1 & hints' & hint & Hin & H2 & H3).
      split; [exact H1 | ]. exists hints', hint. repeat split; auto. now right.
  - intros H. destruct (IH H) as (H1 & hints' & hint & Hin & H2 & H3).
    split; [exact H1 | ]. exists hints', hint. repeat split; auto. now right.
Qed.

Lemma first_hinted_unregistered lower_cmd registry table :
  (forall k hints, In (k, hints) table -> has_key k (tools registry) = false) ->
  first_hinted table lower_cmd registry = None.
Proof.
  induction table as [ | [tool_key hints] table IH]; intros H; [reflexivity | ].
  cbn [first_hinted]. rewrite (H tool_key hints) by now left.
  cbn [andb]. apply IH. intros k hs Hin. apply (H k hs). now right.
Qed.

Lemma tool_hints_keys k hints : In (k, hints) tool_hints -> k <> [].
Proof.
  unfold tool_hints. cbn [In].
  intros [H | [H | [H | [H | [H | []]]]]]; inversion H; discriminate.
Qed.

Lemma detect_not_empty lower command registry :
  detect_tool_from_command lower command registry <> [].
Proof.
  unfold detect_tool_from_command. destruct command as [ | c cs]; [discriminate | ].
  destruct (first_hinted _ _ _) as [k | ] eqn:E; [ | discriminate].
  apply first_hinted_some in E. destruct E as (_ & hints & _ & Hin & _).
  now apply tool_hints_keys in Hin.
Qed.

(** X17.  [detect_tool_from_command] answers ["unknown"] for the empty
    command, and otherwise either ["unknown"] or a key of its table that
    the registry holds and one of whose hints occurs in the lowered command
    line; it never answers a key the registry lacks nor the empty string,
    and with none of the table's tools registered it answers
    ["unknown"]. *)
Theorem detect_tool_registered lower command registry :
  detect_tool_from_command lower [] registry = lit "unknown"
  /\ (detect_tool_from_command lower command registry = lit "unknown"
      \/ (has_key (detect_tool_from_command lower command registry)
             (tools registry) = true
          /\ exists hints hint,
               In (detect_tool_from_command lower command registry, hints) tool_hints
               /\ In hint hints
               /\ contains hint (lower (Osascript.join (lit " ") command)) = true))
  /\ detect_tool_from_command lower command registry <> []
  /\ ((forall k hints, In (k, hints) tool_hints ->
                       has_key k (tools registry) = false) ->
      detect_tool_from_command lower command registry = lit "unknown").
Proof.
  split; [reflexivity | split; [ | split; [apply detect_not_empty | ]]].
  - unfold detect_tool_from_command. destruct command as [ | c cs]; [now left | ].
    destruct (first_hinted _ _ _) as [k | ] eqn:E; [ | now left].
    right. now apply first_hinted_some in E.
  - intros H. unfold detect_tool_from_command.
    destruct command as [ | c cs]; [reflexivity | ].
    now rewrite first_hinted_unregistered.
Qed.

Lemma watcher_tool_key_not_empty lower command tool_override registry :
  watcher_tool_key lower command tool_override registry <> [].
Proof.
  unfold watcher_tool_key. destruct tool_override as [[ | c t] | ]; cbn [truthy];
    try apply detect_not_empty. discriminate.
Qed.

(** X18.  The detector a watcher creates always has a hint, and never
    the empty one: the override when there is a non-empty one, else what
    [detect_tool_from_command] answers.  So whenever the tool of that key
    is registered and one of its patterns is found in the cleaned line,
    [feed_line] settles on that key whatever the other tools, and the
    timeout path reports that key. *)
Theorem watcher_hint_never_empty lower command tool_override registry :
  tool_hint (watcher_detector lower command tool_override registry)
  = Some (watcher_tool_key lower command tool_override registry)
  /\ watcher_tool_key lower command tool_override registry <> []
  /\ (forall t, tool_override = Some t -> t <> [] ->
                watcher_tool_key lower command tool_override registry = t)
  /\ hint_or_unknown (watcher_detector lower command tool_override registry)
     = watcher_tool_key lower command tool_override registry
  /\ (forall tool clean,
        get (watcher_tool_key lower command tool_override registry)
          (tools registry) = Some tool ->
        matches tool clean = true ->
        matched_tool (watcher_detector lower command tool_override registry) clean
        = Some (watcher_tool_key lower command tool_override registry)).
Proof.
  pose proof (watcher_tool_key_not_empty lower command tool_override registry) as Hne.
  split; [reflexivity | split; [exact Hne | split; [ | split]]].
  - intros t -> Ht. unfold watcher_tool_key. destruct t; [congruence | reflexivity].
  - unfold hint_or_unknown, watcher_detector. cbn [tool_hint].
    destruct (watcher_tool_key lower command tool_override registry);
      [congruence | reflexivity].
  - intros tool clean Hg Hm. unfold matched_tool, watcher_detector.
    cbn [tool_hint Detector.registry].
    rewrite (get_has_key _ _ _ Hg), Hg, Hm.
    destruct (watcher_tool_key lower command tool_override registry);
      [congruence | reflexivity].
Qed.



Lemma has_key_mem k items : has_key k items = mem k (keys items).
Proof.
  unfold has_key, mem, keys.
  induction items as [ | [k' t] items IH]; [reflexivity | ].
  cbn [existsb List.map fst]. now rewrite IH.
Qed.





Section Load.

Variable compile : str -> option Re.regex.








End Load.


(** ** The line a notification shows *)

Import Idle.

Lemma sub_class_filter rs t : forall i,
  Re.sub_go (Re.Cls false rs) [] i t 0
  = List.filter (fun c => negb (Re.in_class false rs c)) t.
Proof.
  induction t as [ | c t IH]; intros i; [reflexivity | ].
  cbn [Re.sub_go Re.match_at Re.m List.filter].
  destruct (Re.in_class false rs c); cbn [negb andb].
  - replace (S i =? i) with false by (symmetry; apply Nat.eqb_neq; lia).
    replace (S i - i - 1) with 0 by lia. cbn [app]. apply IH.
  - f_equal. apply IH.
Qed.

Lemma star_answers r k : (forall j u, k j u <> None) ->
  forall i t, Re.m (Re.Star true r) i t k <> None.
Proof.
  intros Hk i t. cbn [Re.m]. generalize (length t) as fuel.
  intros fuel. revert i t.
  induction fuel as [ | fuel IH]; intros i t; [apply Hk | ].
  match goal with
  | |- context [match ?a with Some e => Some e | None => _ end] => destruct a
  end; [discriminate | apply Hk].
Qed.

Lemma star_class_prefix rs k i t e :
  Re.m (Re.Star true (Re.Cls false rs)) i t k = Some e ->
  exists pre post,
    t = pre ++ post
    /\ Forall (fun c => Re.in_class false rs c = true) pre
    /\ k (i + length pre) post = Some e.
Proof.
  cbn [Re.m]. generalize (length t) as fuel. intros fuel. revert i t e.
  induction fuel as [ | fuel IH]; intros i t e H.
  - exists [], t. rewrite Nat.add_0_r. repeat split; [constructor | exact H].
  - destruct t as [ | c t].
    + exists [], []. rewrite Nat.add_0_r. repeat split; [constructor | exact H].
    + destruct (Re.in_class false rs c) eqn:Ec.
      * replace (i <? S i) with true in H by (symmetry; apply Nat.ltb_lt; lia).
        match type of H with
        | match ?a with Some x => Some x | None => _ end = _ =>
            destruct a as [e' | ] eqn:Ea
        end.
        -- apply IH in Ea. destruct Ea as (pre & post & -> & Hpre & Hk).
           exists (c :: pre), post. cbn [app length].
           rewrite Nat.add_succ_r. inversion H; subst e'.
           repeat split; [now constructor | exact Hk].
        -- exists [], (c :: t). rewrite Nat.add_0_r.
           repeat split; [constructor | exact H].
      * exists [], (c :: t). rewrite Nat.add_0_r.
        repeat split; [constructor | exact H].
Qed.


Lemma separator_unfold s :
  Re.match_at _SEPARATOR_RE 0 s false
  = match s with
    | [] => None
    | c :: t =>
        if Re.in_class false separator_class c
        then Re.m (Re.Star true (Re.Cls false separator_class)) 1 t
               (fun j u =>
                  Re.m Re.Eol j u
                    (fun j _ => if false && (j =? 0) then None else Some j))
        else None
    end.
Proof. destruct s; reflexivity. Qed.

Lemma separator_line s e :
  Re.match_at _SEPARATOR_RE 0 s false = Some e ->
  Forall (fun c => Re.in_class false separator_class c = true) s.
Proof.
  rewrite separator_unfold. destruct s as [ | c t]; [discriminate | ].
  destruct (Re.in_class false separator_class c) eqn:Ec; [ | discriminate].
  intros H. apply star_class_prefix in H.
  destruct H as (pre & post & -> & Hpre & Hk).
  constructor; [exact Ec | ]. apply Forall_app. split; [exact Hpre | ].
  destruct post as [ | c' [ | c'' post]]; cbn [Re.m] in Hk.
  - constructor.
  - destruct (N.eqb c' 10) eqn:E10; [ | discriminate].
    apply N.eqb_eq in E10. subst c'. repeat constructor.
  - discriminate.
Qed.

Lemma separator_not_letter c :
  Re.in_class false separator_class c = true -> is_letter c = false.
Proof.
  unfold is_letter, Re.in_class, separator_class, letter_class.
  cbn [existsb xorb]. unfold in_range. intros H.
  repeat rewrite ?orb_true_iff, ?andb_true_iff, ?N.leb_le in H.
  repeat rewrite ?orb_false_iff, ?andb_false_iff, ?N.leb_gt.
  lia.
Qed.

Lemma lstrip_In c s : In c (lstrip s) -> In c s.
Proof.
  induction s as [ | x s IH]; [easy | ]. cbn [lstrip].
  destruct (isspace x); [right; now apply IH | easy].
Qed.

Lemma strip_In c s : In c (strip s) -> In c s.
Proof.
  unfold strip, rstrip. intros H. apply in_rev in H. apply lstrip_In in H.
  apply in_rev in H. now apply lstrip_In.
Qed.

Lemma has_word_letter s :
  has_word s = true -> exists c, In c s /\ is_letter c = true.
Proof.
  induction s as [ | a s IH]; [discriminate | ]. cbn [has_word].
  destruct s as [ | b [ | c s]]; try discriminate.
  intros H. apply orb_true_iff in H. destruct H as [H | H].
  - exists a. split; [now left | ].
    apply andb_true_iff in H. destruct H as [H _].
    apply andb_true_iff in H. tauto.
  - destruct (IH H) as (x & Hin & Hx). exists x. split; [now right | exact Hx].
Qed.

Lemma clean_In c line : In c (clean line) -> In c (strip line) /\ is_decor c = false.
Proof.
  unfold clean. intros H. apply strip_In in H. apply List.filter_In in H.
  destruct H as [H1 H2]. split; [exact H1 | ]. now apply negb_true_iff.
Qed.

Lemma separator_no_word line e :
  Re.match_at _SEPARATOR_RE 0 (strip line) false = Some e ->
  has_word (clean line) = false.
Proof.
  intros H. apply separator_line in H.
  destruct (has_word (clean line)) eqn:E; [ | reflexivity].
  apply has_word_letter in E. destruct E as (c & Hin & Hc).
  apply clean_In in Hin. destruct Hin as [Hin _].
  rewrite List.Forall_forall in H. apply H in Hin.
  apply separator_not_letter in Hin. congruence.
Qed.

Lemma alpha_unfold i t :
  Re.match_at _HAS_ALPHA i t false
  = match t with
    | a :: b :: c :: t' =>
        if is_letter a then
          if is_letter b then
            if is_letter c then
              Re.m (Re.Star true (Re.Cls false letter_class)) (S (S (S i))) t'
                (fun j _ => if false && (j =? i) then None else Some j)
            else None
          else None
        else None
    | _ => None
    end.
Proof.
  unfold is_letter.
  destruct t as [ | a [ | b [ | c t]]]; cbn -[Re.in_class letter_class];
    repeat match goal with
           | |- context [Re.in_class false letter_class ?x] =>
               destruct (Re.in_class false letter_class x)
           end; reflexivity.
Qed.

Lemma alpha_at i t :
  match Re.match_at _HAS_ALPHA i t false with Some _ => true | None => false end
  = match t with
    | a :: b :: c :: _ => is_letter a && is_letter b && is_letter c
    | _ => false
    end.
Proof.
  rewrite alpha_unfold.
  destruct t as [ | a [ | b [ | c t]]]; try reflexivity.
  destruct (is_letter a), (is_letter b), (is_letter c); try reflexivity.
  cbn [andb].
  match goal with
  | |- match ?x with Some _ => true | None => false end = true =>
      destruct x eqn:E; [reflexivity | ]
  end.
  exfalso. revert E. apply star_answers. intros j u.
  cbn [andb]. discriminate.
Qed.

Lemma search_alpha t : forall i,
  match Re.search_from _HAS_ALPHA i t with Some _ => true | None => false end
  = has_word t.
Proof.
  induction t as [ | a t IH]; intros i.
  - cbn [Re.search_from has_word]. rewrite alpha_unfold. reflexivity.
  - cbn [Re.search_from has_word]. pose proof (alpha_at i (a :: t)) as Ha.
    destruct (Re.match_at _HAS_ALPHA i (a :: t) false) as [e | ].
    + destruct t as [ | b [ | c t]]; try discriminate. now rewrite <- Ha.
    + rewrite IH. destruct t as [ | b [ | c t]]; try reflexivity.
      now rewrite <- Ha.
Qed.

Lemma found_alpha s : Re.found _HAS_ALPHA s = has_word s.
Proof. unfold Re.found, Re.search. apply search_alpha. Qed.

Lemma last_meaningful_find lines :
  last_meaningful lines
  = match find (fun line => has_word (clean line)) lines with
    | Some line => clean line
    | None => []
    end.
Proof.
  induction lines as [ | line lines IH]; [reflexivity | ].
  cbn [last_meaningful find].
  destruct (strip line) as [ | c s] eqn:Es.
  - cbn [truthy negb orb]. unfold clean. rewrite Es.
    cbn [List.filter]. change (strip []) with (@nil char).
    cbn [has_word]. exact IH.
  - cbn [truthy negb orb]. rewrite <- Es.
    destruct (Re.match_at _SEPARATOR_RE 0 (strip line) false) as [e | ] eqn:Em.
    + rewrite (separator_no_word _ _ Em). exact IH.
    + unfold Re.sub, _DECOR_RE. rewrite sub_class_filter.
      change (strip (List.filter (fun c => negb (Re.in_class false decor_class c))
                       (strip line)))
        with (clean line).
      rewrite found_alpha.
      destruct (has_word (clean line)); [reflexivity | exact IH].
Qed.

(** X20.  [_last_meaningful_line] returns, of the lines of the text taken
    from the last to the first, the first one that still has three letters
    in a row once its white space and its decoration characters are taken
    off, in that cleaned form, and the empty string when there is none;
    the test against [_SEPARATOR_RE] never changes the answer.  So the
    result holds no decoration character, and it is empty or has three
    letters in a row. *)
Theorem last_meaningful_line_spec text :
  _last_meaningful_line text
  = match find (fun line => has_word (clean line)) (rev (split NL text)) with
    | Some line => clean line
    | None => []
    end
  /\ Forall (fun c => is_decor c = false) (_last_meaningful_line text)
  /\ (_last_meaningful_line text = []
      \/ has_word (_last_meaningful_line text) = true).
Proof.
  unfold _last_meaningful_line. rewrite last_meaningful_find.
  split; [reflexivity | ].
  destruct (find (fun line => has_word (clean line)) (rev (split NL text)))
    as [line | ] eqn:Ef.
  - apply find_some in Ef. destruct Ef as [_ Hw]. split; [ | now right].
    apply List.Forall_forall. intros c Hc. now apply clean_In in Hc.
  - split; [constructor | now left].
Qed.

(** ** The watcher wired to its detector *)

Import Wiring.

Lemma feed_fields d clock line s :
  feed d clock line s
  = {| reads := S (reads s);
       state := fst (feed_line d (clock (reads s)) line (state s));
       calls := calls s ++ snd (feed_line d (clock (reads s)) line (state s)) |}.
Proof. unfold feed. now destruct (feed_line d (clock (reads s)) line (state s)). Qed.

Lemma feed_fold d clock lines : forall s,
  fold_left (fun s l => feed d clock l s) lines s
  = {| reads := reads s + length lines;
       state := fst (run d (stamp clock (reads s) lines) (state s));
       calls := calls s ++ snd (run d (stamp clock (reads s) lines) (state s)) |}.
Proof.
  induction lines as [ | line lines IH]; intros [n st out].
  - cbn. now rewrite Nat.add_0_r, app_nil_r.
  - cbn [fold_left]. rewrite IH, feed_fields.
    cbn [reads state calls stamp run step length].
    destruct (feed_line d (clock n) line st) as [st1 out1].
    cbn [fst snd].
    destruct (run d (stamp clock (S n) lines) st1) as [st2 out2].
    cbn [fst snd]. rewrite <- app_assoc. f_equal. lia.
Qed.

Lemma fed_stamp clock lines : forall n, fed (stamp clock n lines) = lines.
Proof.
  induction lines as [ | line lines IH]; intros n; [reflexivity | ].
  cbn [stamp fed]. now rewrite IH.
Qed.

Lemma fed_lines_all_fed chunks :
  fed_lines chunks = all_fed [] (List.map decode chunks).
Proof.
  unfold fed_lines. rewrite deliver_decoded, deliver_text_fed. apply record_fold.
Qed.

(** X21.  What [_handle_output] does to the detector over a sequence of
    chunks is a run of the detector: one call of [feed_line] for each line
    the handler feeds, in order, each with its own reading of the clock;
    the state it leaves and the invocations of the callback are those of
    that run. *)
Theorem watcher_runs_detector d clock chunks n st :
  snd (deliver (feed d clock) chunks (fresh n st))
  = {| reads := n + length (fed_lines chunks);
       state := fst (run d (stamp clock n (fed_lines chunks)) st);
       calls := snd (run d (stamp clock n (fed_lines chunks)) st) |}
  /\ fed (stamp clock n (fed_lines chunks)) = fed_lines chunks
  /\ length (stamp clock n (fed_lines chunks)) = length (fed_lines chunks).
Proof.
  split; [ | split].
  - unfold fresh. rewrite deliver_decoded, deliver_text_fed, feed_fold.
    now rewrite fed_lines_all_fed.
  - apply fed_stamp.
  - generalize n. induction (fed_lines chunks) as [ | l ls IH]; intros k;
      [reflexivity | ]. cbn [stamp length]. now rewrite IH.
Qed.

Lemma split_one_line s : Forall one_line (split NL s).
Proof.
  unfold one_line, contains_char.
  induction s as [ | c s IH]; [repeat constructor | ].
  cbn [split]. destruct (N.eqb c NL) eqn:Ec.
  - constructor; [reflexivity | exact IH].
  - pose proof (split_nonempty NL s) as Hne.
    destruct (split NL s) as [ | l ls]; [congruence | ].
    inversion IH as [ | ? ? Hl Hls]; subst. constructor; [ | exact Hls].
    cbn [existsb]. now rewrite N.eqb_sym, Ec, Hl.
Qed.

Lemma removelast_In {A} (x : A) l : In x (removelast l) -> In x l.
Proof.
  induction l as [ | y l IH]; [easy | ]. cbn [removelast].
  destruct l as [ | z l]; [easy | ].
  intros [-> | H]; [now left | right; now apply IH].
Qed.

Lemma all_fed_one_line texts : forall buf,
  Forall one_line (all_fed buf texts).
Proof.
  induction texts as [ | text texts IH]; intros buf; [constructor | ].
  cbn [all_fed]. destruct (completed_split buf text) as [-> ->].
  apply Forall_app. split; [ | apply Forall_app; split; [ | apply IH]].
  - apply List.Forall_forall. intros l Hl. apply removelast_In in Hl.
    pose proof (split_one_line (buf ++ text)) as H.
    rewrite List.Forall_forall in H. now apply H.
  - unfold fragment.
    destruct (truthy (strip (List.last (split NL (buf ++ text)) [])));
      [ | constructor].
    constructor; [apply last_split_no_newline | constructor].
Qed.

Lemma remainder_one_line texts : forall buf,
  one_line buf -> one_line (fold_left remainder texts buf).
Proof.
  induction texts as [ | text texts IH]; intros buf H; [exact H | ].
  cbn [fold_left]. apply IH. destruct (completed_split buf text) as [_ ->].
  apply last_split_no_newline.
Qed.

(** X22.  No line the handler feeds to the detector holds a newline,
    wherever the chunks are cut, and neither does the text it keeps in
    its buffer for the next chunk. *)
Theorem fed_lines_one_line chunks :
  Forall one_line (fed_lines chunks)
  /\ one_line (fst (deliver record_line chunks ([], []))).
Proof.
  split.
  - rewrite fed_lines_all_fed. apply all_fed_one_line.
  - rewrite deliver_decoded, deliver_text_buffer.
    apply remainder_one_line. reflexivity.
Qed.

(** ** The text an idle event carries *)













